(** * tee-js: Array.tee (createTeeIterators) and Array.prototype.tee (teeConsumers)

    Shallow embedding of [src/unnamed/part_002] (the compiled index.js).
    The splitter state owned by [createTeeIterators] (the source iterator, the
    shared [streamBuffer], the [iteratorIndexPositions] array, the
    [streamExhausted] / [streamError] flags and the per-cursor [done] closure
    variables) is an explicit record; each cursor method ([next], [return],
    [throw]) is a function on that record. *)

From Stdlib Require Import QArith Qround.
From Stdlib Require String.
From stdpp Require Import base list sets strings.
#[local] Set Warnings "-register-all".

(* ------------------------------------------------------------------ *)
(** ** JavaScript values *)

(** The data values that flow through the library.  Numbers are exact
    rationals (enough for the integers and fractions the claims use).
    [VGen items err] is an iterable object whose iterator yields [items]
    and then either ends ([err = None]) or raises [e] ([err = Some e]), after
    which, like a generator, it reports [done]. [VObj] is a plain object
    without [Symbol.iterator]. *)
Inductive val :=
| VUndef
| VNull
| VBool (b : bool)
| VNum (q : Q)
| VStr (s : string)
| VArr (l : list val)
| VObj
| VGen (items : list val) (err : option val).

(** JavaScript truthiness ([if (x)]). *)
Definition truthy (v : val) : bool :=
  match v with
  | VUndef | VNull => false
  | VBool b => b
  | VNum q => negb (Qeq_bool q 0)
  | VStr s => negb (bool_decide (s = ""%string))
  | VArr _ | VObj | VGen _ _ => true
  end.

(** [x === undefined] *)
Definition is_undefined (v : val) : bool :=
  match v with VUndef => true | _ => false end.

(** Exceptions raised by the library. [Thrown v] is a value thrown by the
    source iterator (or passed to a cursor's [throw]). *)
Inductive exn :=
| PlainError (msg : string)   (* new Error(...) *)
| TypeError (msg : string)    (* new TypeError(...), or an engine TypeError *)
| RangeError                  (* Array(n) with an invalid length *)
| Thrown (v : val).

(* ------------------------------------------------------------------ *)
(** ** The source iterator *)

(** One result of [sourceIterator.next()]. *)
Inductive pull_outcome :=
| PValue (v : val)   (* { value: v, done: false } *)
| PDone              (* { done: true } *)
| PThrow (e : val).  (* next() raised e *)

(** The [k]-th call (0-based) of [next()] on an iterator over [items]
    followed by [err]. *)
Definition source_pull (items : list val) (err : option val) (k : nat) : pull_outcome :=
  match items !! k with
  | Some v => PValue v
  | None =>
      match err with
      | Some e => if bool_decide (k = length items) then PThrow e else PDone
      | None => PDone
      end
  end.

(* ------------------------------------------------------------------ *)
(** ** Splitter state *)

Record splitter := mkSplitter {
  src_items : list val;              (* what sourceIterator yields ... *)
  src_err : option val;              (* ... and whether it then raises *)
  pulls : nat;                       (* calls made to sourceIterator.next() *)
  streamExhausted : bool;
  streamError : option val;          (* None is the initial null *)
  streamBuffer : list val;
  iteratorIndexPositions : list nat;
  dones : list bool                  (* the [done] variable of each cursor *)
}.

Definition set_pulls (n : nat) (st : splitter) : splitter :=
  mkSplitter (src_items st) (src_err st) n (streamExhausted st) (streamError st)
    (streamBuffer st) (iteratorIndexPositions st) (dones st).
Definition set_exhausted (b : bool) (st : splitter) : splitter :=
  mkSplitter (src_items st) (src_err st) (pulls st) b (streamError st)
    (streamBuffer st) (iteratorIndexPositions st) (dones st).
Definition set_error (e : option val) (st : splitter) : splitter :=
  mkSplitter (src_items st) (src_err st) (pulls st) (streamExhausted st) e
    (streamBuffer st) (iteratorIndexPositions st) (dones st).
Definition set_buffer (b : list val) (st : splitter) : splitter :=
  mkSplitter (src_items st) (src_err st) (pulls st) (streamExhausted st)
    (streamError st) b (iteratorIndexPositions st) (dones st).
Definition set_positions (p : list nat) (st : splitter) : splitter :=
  mkSplitter (src_items st) (src_err st) (pulls st) (streamExhausted st)
    (streamError st) (streamBuffer st) p (dones st).
Definition set_dones (d : list bool) (st : splitter) : splitter :=
  mkSplitter (src_items st) (src_err st) (pulls st) (streamExhausted st)
    (streamError st) (streamBuffer st) (iteratorIndexPositions st) d.

(** The state right after [createTeeIterators(source, count)] has built its
    [count] cursors: no pull has happened yet. *)
Definition init_splitter (items : list val) (err : option val) (count : nat) : splitter :=
  mkSplitter items err 0 false None [] (replicate count 0) (replicate count false).

(** [done] of cursor [i], and [iteratorIndexPositions[i]]. *)
Definition done_of (st : splitter) (i : nat) : bool := dones st !!! i.
Definition pos_of (st : splitter) (i : nat) : nat := iteratorIndexPositions st !!! i.

(** [const result = sourceIterator.next()] and the bookkeeping of the
    [try] block of [getNextStreamElement]. *)
Definition pull_source (st : splitter) : pull_outcome * splitter :=
  let st1 := set_pulls (S (pulls st)) st in
  match source_pull (src_items st) (src_err st) (pulls st) with
  | PValue v => (PValue v, st1)
  | PDone => (PDone, set_exhausted true st1)          (* streamExhausted = true *)
  | PThrow e => (PThrow e, set_error (Some e) st1)    (* streamError = e; throw e *)
  end.

(** [getNextStreamElement]. [if (streamError)] tests truthiness. *)
Definition getNextStreamElement (st : splitter) : pull_outcome * splitter :=
  if streamExhausted st then (PDone, st) else
  match streamError st with
  | Some e => if truthy e then (PThrow e, st) else pull_source st
  | None => pull_source st
  end.

(** [Math.min(...iteratorIndexPositions)]; the empty case ([Infinity]) never
    arises, since a cursor exists only when [count >= 1]. *)
Definition list_min (l : list nat) : nat :=
  match l with
  | [] => 0
  | x :: r => foldr Nat.min x r
  end.

Definition list_max (l : list nat) : nat := foldr Nat.max 0 l.

(** [cleanupStreamBuffer]: [splice(0, m)] drops the first [m] elements and
    every position is decreased by [m]. *)
Definition cleanupStreamBuffer (st : splitter) : splitter :=
  let m := list_min (iteratorIndexPositions st) in
  set_positions ((fun p => p - m) <$> iteratorIndexPositions st)
    (set_buffer (drop m (streamBuffer st)) st).

(** Result of a cursor's [next()]. *)
Inductive result :=
| RYield (v : val)   (* { value: v, done: false } *)
| RDone              (* { value: undefined, done: true } *)
| RThrow (e : val).  (* next() raised e *)

(** [next()] of the cursor built by [createTeedIterator(index)].
    [streamBuffer[p]] is read through [!!], which is [Some] exactly when
    [p < streamBuffer.length]. *)
Definition next (index : nat) (st : splitter) : result * splitter :=
  if done_of st index then (RDone, st) else
  let p := pos_of st index in
  match streamBuffer st !! p with
  | Some v =>
      (RYield v,
       cleanupStreamBuffer
         (set_positions (<[index := S p]> (iteratorIndexPositions st)) st))
  | None =>
      match getNextStreamElement st with
      | (PThrow e, st1) => (RThrow e, st1)
      | (PDone, st1) => (RDone, set_dones (<[index := true]> (dones st1)) st1)
      | (PValue v, st1) =>
          (RYield v,
           cleanupStreamBuffer
             (set_positions (<[index := S p]> (iteratorIndexPositions st1))
                (set_buffer (streamBuffer st1 ++ [v]) st1)))
      end
  end.

(** [return(value)]: returns [{ value, done }] with [done] now true. *)
Definition cursor_return (index : nat) (value : val) (st : splitter) : (val * bool) * splitter :=
  let st1 := if done_of st index then st
             else set_dones (<[index := true]> (dones st)) st in
  ((value, done_of st1 index), st1).

(** [throw(e)]: marks the cursor done, then raises [e]. *)
Definition cursor_throw (index : nat) (e : val) (st : splitter) : exn * splitter :=
  let st1 := if done_of st index then st
             else set_dones (<[index := true]> (dones st)) st in
  (Thrown e, st1).

(** A run of [next()] calls: [ops] lists the cursor whose [next()] is called
    at each step. The trace pairs each call with its result. *)
Fixpoint run (ops : list nat) (st : splitter) : list (nat * result) * splitter :=
  match ops with
  | [] => ([], st)
  | i :: ops' =>
      let '(r, st1) := next i st in
      let '(tr, st2) := run ops' st1 in
      ((i, r) :: tr, st2)
  end.

(** The results seen by cursor [i], in order. *)
Definition results_of (i : nat) (tr : list (nat * result)) : list result :=
  omap (fun '(j, r) => if bool_decide (j = i) then Some r else None) tr.

(** Number of [next()] calls made on cursor [i]. *)
Fixpoint calls_to (i : nat) (ops : list nat) : nat :=
  match ops with
  | [] => 0
  | j :: ops' => (if bool_decide (j = i) then 1 else 0) + calls_to i ops'
  end.

(* ------------------------------------------------------------------ *)
(** ** Logical view of a splitter over a finite source *)

(** Elements taken from the source so far (the final [done] pull is not an
    element). *)
Definition elems_pulled (st : splitter) : nat :=
  pulls st - (if streamExhausted st then 1 else 0).

(** Logical index, in the source, of [streamBuffer[0]]. *)
Definition offset (st : splitter) : nat :=
  elems_pulled st - length (streamBuffer st).

(** Logical read position of cursor [i]: how many elements it has yielded. *)
Definition lpos (st : splitter) (i : nat) : nat := offset st + pos_of st i.

(** The [k]-th result direct iteration of [S] gives. *)
Definition expected (S : list val) (k : nat) : result :=
  match S !! k with Some v => RYield v | None => RDone end.

(* ------------------------------------------------------------------ *)
(** ** [createTeeIterators(sourceIterable, count)] *)

(** Outcome of [sourceIterable[Symbol.iterator]]: reading a property of
    [undefined] or [null] raises a TypeError; numbers, booleans and plain
    objects have no iterator; arrays, strings and iterable objects have one,
    described by what it yields and whether it then raises. *)
Inductive iter_lookup :=
| IterTypeError
| IterNone
| IterSome (items : list val) (err : option val).

Definition iterator_of (v : val) : iter_lookup :=
  match v with
  | VUndef | VNull => IterTypeError
  | VBool _ | VNum _ | VObj => IterNone
  | VStr s => IterSome (map (fun a => VStr (String.String a String.EmptyString)) (String.list_ascii_of_string s)) None
  | VArr l => IterSome l None
  | VGen items err => IterSome items err
  end.

(** [Array(n)] for an integer [n]: a RangeError unless [0 <= n < 2^32]. *)
Definition valid_array_length (n : Z) : bool := (0 <=? n)%Z && (n <? 2 ^ 32)%Z.

(** [createTeeIterators], called with the argument list [args]. On success the
    result is the splitter shared by the [count] cursors, before any of them
    is used; the cursors are then driven by [next], [cursor_return] and
    [cursor_throw]. *)
Definition createTeeIterators (args : list val) : exn + splitter :=
  match args with
  | [sourceIterable; count] =>
      match iterator_of sourceIterable with
      | IterTypeError => inl (TypeError "Cannot read properties of undefined")
      | IterNone => inl (PlainError "Expected Arg 1 to be an iterator.")
      | IterSome items err =>
          match count with
          | VNum q =>
              let n := Qfloor q in                         (* Math.floor(count) *)
              if valid_array_length n                      (* Array(count) *)
              then inr (init_splitter items err (Z.to_nat n))
              else inl RangeError
          | _ => inl (PlainError "Expected Arg 2 to be an integer")
          end
      end
  | _ => inl (PlainError "Expected 2 arguments")
  end.

(** The count [split] would use if it truncated toward zero. *)
Definition trunc_toward_zero (q : Q) : Z := Z.quot (Qnum q) (Zpos (Qden q)).

(** [Number(n)] for a natural number. *)
Definition num_of_nat (n : nat) : val := VNum (inject_Z (Z.of_nat n)).

(** Read positions of the cursors that are not yet terminal ([done] false). *)
Definition live_positions (st : splitter) : list nat :=
  omap (fun pd : nat * bool => let '(p, d) := pd in if d then None else Some p)
    (zip (iteratorIndexPositions st) (dones st)).

(* ------------------------------------------------------------------ *)
(** ** [Array.prototype.tee(...consumers)] ([teeConsumers]) *)

(** A property value that may be a function: [FFun f] is a function taking
    the argument list (it returns normally; side effects are recorded in the
    call trace below). *)
Inductive fnval :=
| FFun (f : list val -> val)
| FVal (v : val).

(** A consumer object [{ kind, fn, initVal }]; [None] is an absent property. *)
Record desc := mkDesc {
  d_kind : option val;
  d_fn : option fnval;
  d_initVal : option val
}.

(** An argument of [teeConsumers]: a plain value (primitive, array or plain
    object without [kind]) or a consumer object. *)
Inductive arg :=
| APrim (v : val)
| AObj (d : desc).

Definition is_object (v : val) : bool :=
  match v with VArr _ | VObj | VGen _ _ => true | _ => false end.

(** The validation loop over [consumers]. *)
Definition validate_consumer (c : arg) : exn + desc :=
  match c with
  | APrim v =>
      if is_object v then inl (TypeError "Each consumer must have a string kind property")
      else inl (TypeError "Each consumer must be an object")
  | AObj d =>
      match d_kind d with
      | Some (VStr _) =>
          match d_fn d with
          | Some (FFun _) => inr d
          | _ => inl (TypeError "Each consumer must have a function fn property")
          end
      | _ => inl (TypeError "Each consumer must have a string kind property")
      end
  end.

Fixpoint validate_consumers (cs : list arg) : exn + list desc :=
  match cs with
  | [] => inr []
  | c :: cs' =>
      match validate_consumer c with
      | inl e => inl e
      | inr d => match validate_consumers cs' with inl e => inl e | inr ds => inr (d :: ds) end
      end
  end.

Definition kind_of (d : desc) : string :=
  match d_kind d with Some (VStr k) => k | _ => "" end.

(** A call [fn.fn(...args)] made by consumer [ci]. *)
Definition call := (nat * list val)%type.

Definition call_fn (d : desc) (args : list val) : exn + val :=
  match d_fn d with
  | Some (FFun f) => inr (f args)
  | _ => inl (TypeError "fn.fn is not a function")
  end.

(** The loop variables [mapResult], [reduceResult], [filterResult]. *)
Record loop_vars := mkVars {
  mapResult : list val;
  reduceResult : val;
  filterResult : list val
}.

(** [let reduceResult = fn.kind === 'reduce' ? fn.initVal : undefined] *)
Definition init_vars (d : desc) : loop_vars :=
  mkVars [] (if bool_decide (kind_of d = "reduce") then default VUndef (d_initVal d) else VUndef) [].

(** The body of [for (const elem of iterators[consumerIdx])], for the element
    at [elementIdx]; the trace records each [fn.fn] call. *)
Definition consumer_body (ci : nat) (d : desc) (lv : loop_vars) (elem : val) (elementIdx : nat)
    (tr : list call) : (exn + loop_vars) * list call :=
  let idx := num_of_nat elementIdx in
  if bool_decide (kind_of d = "forEach") then
    match call_fn d [elem; idx] with
    | inl e => (inl e, tr ++ [(ci, [elem; idx])])
    | inr _ => (inr lv, tr ++ [(ci, [elem; idx])])
    end
  else if bool_decide (kind_of d = "map") then
    match call_fn d [elem; idx] with
    | inl e => (inl e, tr ++ [(ci, [elem; idx])])
    | inr v => (inr (mkVars (mapResult lv ++ [v]) (reduceResult lv) (filterResult lv)),
                tr ++ [(ci, [elem; idx])])
    end
  else if bool_decide (kind_of d = "reduce") then
    if bool_decide (elementIdx = 0) && is_undefined (reduceResult lv) then
      (inr (mkVars (mapResult lv) elem (filterResult lv)), tr)
    else
      match call_fn d [reduceResult lv; elem; idx] with
      | inl e => (inl e, tr ++ [(ci, [reduceResult lv; elem; idx])])
      | inr v => (inr (mkVars (mapResult lv) v (filterResult lv)),
                  tr ++ [(ci, [reduceResult lv; elem; idx])])
      end
  else if bool_decide (kind_of d = "filter") then
    match call_fn d [elem; idx] with
    | inl e => (inl e, tr ++ [(ci, [elem; idx])])
    | inr v => (inr (if truthy v then mkVars (mapResult lv) (reduceResult lv) (filterResult lv ++ [elem])
                     else lv),
                tr ++ [(ci, [elem; idx])])
    end
  else (inl (PlainError "Unknown consumer kind"), tr).

(** The [for ... of] loop over cursor [ci]. It ends when [next()] reports
    [done]; a [next()] that raises ends it with that error; when the body
    raises, the loop closes the iterator ([return()]) and rethrows. [fuel]
    bounds the number of iterations ([None]: fuel ran out). *)
Fixpoint for_of (fuel : nat) (ci : nat) (d : desc) (lv : loop_vars) (elementIdx : nat)
    (st : splitter) (tr : list call) : option ((exn + loop_vars) * splitter * list call) :=
  match fuel with
  | O => None
  | Datatypes.S fuel' =>
      match next ci st with
      | (RDone, st1) => Some (inr lv, st1, tr)
      | (RThrow e, st1) => Some (inl (Thrown e), st1, tr)
      | (RYield elem, st1) =>
          match consumer_body ci d lv elem elementIdx tr with
          | (inl e, tr1) => Some (inl e, snd (cursor_return ci VUndef st1), tr1)
          | (inr lv1, tr1) => for_of fuel' ci d lv1 (Datatypes.S elementIdx) st1 tr1
          end
      end
  end.

(** [outResults[consumerIdx] = ...]; an unknown kind leaves the [0] that
    [Array(n).fill(0)] put there. *)
Definition store_result (d : desc) (lv : loop_vars) : val :=
  if bool_decide (kind_of d = "forEach") then VUndef
  else if bool_decide (kind_of d = "reduce") then reduceResult lv
  else if bool_decide (kind_of d = "map") then VArr (mapResult lv)
  else if bool_decide (kind_of d = "filter") then VArr (filterResult lv)
  else VNum 0.

(** The [for (let consumerIdx = 0; ...)] loop. *)
Fixpoint run_consumers (fuel : nat) (ci : nat) (ds : list desc) (st : splitter) (tr : list call)
    : option ((exn + list val) * splitter * list call) :=
  match ds with
  | [] => Some (inr [], st, tr)
  | d :: ds' =>
      match for_of fuel ci d (init_vars d) 0 st tr with
      | None => None
      | Some (inl e, st1, tr1) => Some (inl e, st1, tr1)
      | Some (inr lv, st1, tr1) =>
          match run_consumers fuel (Datatypes.S ci) ds' st1 tr1 with
          | Some (inr out, st2, tr2) => Some (inr (store_result d lv :: out), st2, tr2)
          | r => r
          end
      end
  end.

(** [teeConsumers] called on [this] with [consumers]: the completion, the
    number of pulls made from the source, and the trace of [fn] calls. The
    loop over a cursor of an array runs at most [length + 1] times, which is
    the fuel given. *)
Definition teeConsumers (this : val) (consumers : list arg)
    : option ((exn + list val) * nat * list call) :=
  match this with
  | VArr items =>
      match consumers with
      | [] => Some (inl (PlainError "At least one consumer must be provided"), 0, [])
      | _ =>
          match validate_consumers consumers with
          | inl e => Some (inl e, 0, [])
          | inr ds =>
              match createTeeIterators [this; num_of_nat (length ds)] with
              | inl e => Some (inl e, 0, [])
              | inr st =>
                  match run_consumers (Datatypes.S (length items)) 0 ds st [] with
                  | None => None
                  | Some (r, st', tr) => Some (r, pulls st', tr)
                  end
              end
          end
      end
  | _ => Some (inl (TypeError "teeConsumers must be called on an array"), 0, [])
  end.

(** The loop bodies of one consumer applied to the elements [xs], starting at
    index [elementIdx], with no cursor in between: what [for_of] computes
    once its cursor replays the source. *)
Fixpoint body_fold (ci : nat) (d : desc) (lv : loop_vars) (elementIdx : nat) (xs : list val)
    (tr : list call) : (exn + loop_vars) * list call :=
  match xs with
  | [] => (inr lv, tr)
  | x :: xs' =>
      match consumer_body ci d lv x elementIdx tr with
      | (inl e, tr1) => (inl e, tr1)
      | (inr lv1, tr1) => body_fold ci d lv1 (Datatypes.S elementIdx) xs' tr1
      end
  end.

(** The consumers [ds] run one after the other over the whole source [S]. *)
Fixpoint consumers_fold (S : list val) (ci : nat) (ds : list desc) (tr : list call)
    : (exn + list val) * list call :=
  match ds with
  | [] => (inr [], tr)
  | d :: ds' =>
      match body_fold ci d (init_vars d) 0 S tr with
      | (inl e, tr1) => (inl e, tr1)
      | (inr lv, tr1) =>
          match consumers_fold S (Datatypes.S ci) ds' tr1 with
          | (inr out, tr2) => (inr (store_result d lv :: out), tr2)
          | r => r
          end
      end
  end.

(** Spec-side descriptions of the four consumer kinds, from the spec's words. *)
Definition indexed (k : nat) (xs : list val) : list (nat * val) := zip (seq k (length xs)) xs.

Definition spec_map (f : list val -> val) (xs : list val) : list val :=
  map (fun ix : nat * val => f [ix.2; num_of_nat ix.1]) (indexed 0 xs).

Definition spec_filter (f : list val -> val) (xs : list val) : list val :=
  map snd (filter (fun ix : nat * val => truthy (f [ix.2; num_of_nat ix.1]) = true) (indexed 0 xs)).

(** [fn(accumulator, element, index)] applied for each index from [k] on:
    the final accumulator and the argument lists of the calls. *)
Fixpoint reduce_from (f : list val -> val) (acc : val) (k : nat) (xs : list val)
    : val * list (list val) :=
  match xs with
  | [] => (acc, [])
  | x :: xs' =>
      let args := [acc; x; num_of_nat k] in
      let '(a, cs) := reduce_from f (f args) (Datatypes.S k) xs' in (a, args :: cs)
  end.

(** A well-formed consumer in the spec's sense: an object with a string
    [kind] and a function-valued [fn]. *)
Definition well_formed_consumer (c : arg) : bool :=
  match c with
  | AObj d =>
      match d_kind d, d_fn d with
      | Some (VStr _), Some (FFun _) => true
      | _, _ => false
      end
  | APrim _ => false
  end.

Definition known_kind (d : desc) : bool :=
  bool_decide (kind_of d ∈ ["map"; "filter"; "reduce"; "forEach"]%string).

(** [reduce] from index 0, as the loop does it: an undefined accumulator is
    replaced by the first element, with no call. *)
Definition reduce_run (f : list val -> val) (acc : val) (xs : list val) : val * list (list val) :=
  if is_undefined acc then
    match xs with
    | [] => (acc, [])
    | x :: xs' => reduce_from f x 1 xs'
    end
  else reduce_from f acc 0 xs.

(** The result the spec gives for one consumer over the array [S]: the
    mapped values, the elements kept by the predicate, the final accumulator,
    or [undefined] for [forEach]. *)
Definition spec_result (S : list val) (d : desc) : val :=
  match d_fn d with
  | Some (FFun f) =>
      if bool_decide (kind_of d = "map") then VArr (spec_map f S)
      else if bool_decide (kind_of d = "filter") then VArr (spec_filter f S)
      else if bool_decide (kind_of d = "reduce") then fst (reduce_run f (default VUndef (d_initVal d)) S)
      else VUndef
  | _ => VUndef
  end.

(** Numbers and functions of the README examples. *)
Definition qnum (z : Z) : val := VNum (inject_Z z).

Definition ex_double (a : list val) : val :=
  match a with VNum x :: _ => VNum (x * 2) | _ => VUndef end.

Definition ex_is_even (a : list val) : val :=
  match a with VNum x :: _ => VBool (Z.eqb (Z.modulo (Qnum x) 2) 0) | _ => VUndef end.

Definition ex_plus (a : list val) : val :=
  match a with VNum x :: VNum y :: _ => VNum (x + y) | _ => VUndef end.

Definition ex_times (a : list val) : val :=
  match a with VNum x :: VNum y :: _ => VNum (x * y) | _ => VUndef end.

Definition ex_noop (a : list val) : val := VUndef.

(** [{ kind: 'map', fn: x => x * 2 }, { kind: 'filter', fn: x => x % 2 === 0 },
     { kind: 'reduce', fn: (acc, x) => acc + x, initVal: 0 },
     { kind: 'forEach', fn: () => {} }] *)
Definition ex_consumers : list desc :=
  [mkDesc (Some (VStr "map")) (Some (FFun ex_double)) None;
   mkDesc (Some (VStr "filter")) (Some (FFun ex_is_even)) None;
   mkDesc (Some (VStr "reduce")) (Some (FFun ex_plus)) (Some (qnum 0));
   mkDesc (Some (VStr "forEach")) (Some (FFun ex_noop)) None].

(** The result the runner stores for a consumer that never sees an element. *)
Definition empty_result (d : desc) : val :=
  if bool_decide (kind_of d = "map") || bool_decide (kind_of d = "filter") then VArr []
  else if bool_decide (kind_of d = "reduce") then default VUndef (d_initVal d)
  else if bool_decide (kind_of d = "forEach") then VUndef
  else VNum 0.

(** The [fn] calls of one consumer of a recognised kind over [S]: one call
    [fn(element, index)] per element for map, filter and forEach, and the
    calls of the fold for reduce. *)
Definition consumer_calls (S : list val) (ci : nat) (d : desc) : list call :=
  match d_fn d with
  | Some (FFun f) =>
      if bool_decide (kind_of d = "reduce")
      then map (pair ci) (snd (reduce_run f (default VUndef (d_initVal d)) S))
      else map (fun ix : nat * val => (ci, [ix.2; num_of_nat ix.1])) (indexed 0 S)
  | _ => []
  end.

Fixpoint all_calls (S : list val) (ci : nat) (ds : list desc) : list call :=
  match ds with
  | [] => []
  | d :: ds' => consumer_calls S ci d ++ all_calls S (Datatypes.S ci) ds'
  end.

(** A call trace in which the calls of consumer [i] all come before those of
    any later consumer. *)
Definition grouped (l : list call) : Prop :=
  forall a b ca cb, a < b -> l !! a = Some ca -> l !! b = Some cb -> fst ca <= fst cb.

Example ex_tee_10_20_30 :
  let st0 := init_splitter [VNum 10; VNum 20; VNum 30] None 2 in
  map snd (fst (run [0;0;0;0;1;1;1;1] st0)) =
  [RYield (VNum 10); RYield (VNum 20); RYield (VNum 30); RDone;
   RYield (VNum 10); RYield (VNum 20); RYield (VNum 30); RDone].
Proof. reflexivity. Qed.

(* ------------------------------------------------------------------ *)
(** ** Invariant of the splitter over a finite, non-raising source *)

Lemma foldr_min_spec (x : nat) (r : list nat) :
  foldr Nat.min x r <= x /\ (forall y, y ∈ r -> foldr Nat.min x r <= y) /\
  foldr Nat.min x r ∈ x :: r.
Proof.
  induction r as [|z r IH]; simpl.
  - split; [lia|]. split; [intros y Hy; inversion Hy|]. set_solver.
  - destruct IH as (H1 & H2 & H3). split; [lia|]. split.
    + intros y Hy. apply elem_of_cons in Hy as [->|Hy]; [lia|]. specialize (H2 y Hy). lia.
    + destruct (Nat.min_spec z (foldr Nat.min x r)) as [[_ ->]|[_ ->]].
      * set_solver.
      * set_solver.
Qed.

Lemma list_min_le (l : list nat) (x : nat) : x ∈ l -> list_min l <= x.
Proof.
  destruct l as [|y r]; intros Hx; [inversion Hx|]. simpl.
  destruct (foldr_min_spec y r) as (H1 & H2 & _).
  apply elem_of_cons in Hx as [->|Hx]; [lia|]. auto.
Qed.

Lemma list_min_elem (l : list nat) : l <> [] -> list_min l ∈ l.
Proof.
  destruct l as [|y r]; intros Hl; [congruence|]. simpl.
  apply (foldr_min_spec y r).
Qed.

Record Inv (S : list val) (N : nat) (st : splitter) : Prop := {
  inv_items : src_items st = S;
  inv_err : src_err st = None;
  inv_noerror : streamError st = None;
  inv_npos : length (iteratorIndexPositions st) = N;
  inv_ndone : length (dones st) = N;
  inv_pulls : if streamExhausted st then pulls st = Datatypes.S (length S)
              else pulls st <= length S;
  inv_buflen : length (streamBuffer st) <= elems_pulled st;
  inv_buf : forall k, k < length (streamBuffer st) ->
              streamBuffer st !! k = S !! (offset st + k);
  inv_pos : forall j, j < N -> pos_of st j <= length (streamBuffer st);
  inv_min : exists j, j < N /\ pos_of st j = 0;
  inv_max : exists j, j < N /\ pos_of st j = length (streamBuffer st)
}.

(** A cursor is [done] only after it has seen the source end: the source is
    exhausted and the cursor has yielded every element. (Cursors closed by
    [return] or [throw] do not satisfy this; see [Inv] alone for those.) *)
Definition Inv_done (N : nat) (st : splitter) : Prop :=
  forall j, j < N -> done_of st j = true ->
    streamExhausted st = true /\ lpos st j = elems_pulled st.

Lemma Inv_init (S : list val) (N : nat) : 1 <= N -> Inv S N (init_splitter S None N).
Proof.
  intros HN. unfold init_splitter.
  constructor; unfold pos_of, done_of; simpl; auto using length_replicate.
  - lia.
  - intros k Hk. simpl in Hk. lia.
  - intros j Hj. rewrite lookup_total_replicate_2 by lia. lia.
  - exists 0. split; [lia|]. rewrite lookup_total_replicate_2 by lia. reflexivity.
  - exists 0. split; [lia|]. rewrite lookup_total_replicate_2 by lia. reflexivity.
Qed.

Lemma Inv_done_init (N : nat) (S : list val) : Inv_done N (init_splitter S None N).
Proof.
  intros j Hj. unfold done_of, init_splitter; cbn [dones].
  rewrite lookup_total_replicate_2 by lia. discriminate.
Qed.

(** What [cleanupStreamBuffer] preserves, and what it establishes. *)
Lemma cleanup_spec (S : list val) (N : nat) (st : splitter) :
  length (iteratorIndexPositions st) = N -> 1 <= N ->
  (forall j, j < N -> pos_of st j <= length (streamBuffer st)) ->
  length (streamBuffer st) <= elems_pulled st ->
  (forall k, k < length (streamBuffer st) ->
     streamBuffer st !! k = S !! (offset st + k)) ->
  let st' := cleanupStreamBuffer st in
  length (iteratorIndexPositions st') = N /\
  (forall j, j < N -> pos_of st' j <= length (streamBuffer st')) /\
  length (streamBuffer st') <= elems_pulled st' /\
  (forall k, k < length (streamBuffer st') ->
     streamBuffer st' !! k = S !! (offset st' + k)) /\
  (exists j, j < N /\ pos_of st' j = 0) /\
  (forall j, j < N -> lpos st' j = lpos st j) /\
  ((exists j, j < N /\ pos_of st j = length (streamBuffer st)) ->
   exists j, j < N /\ pos_of st' j = length (streamBuffer st')).
Proof.
  intros Hlen HN Hpos Hbl Hbuf st'.
  set (m := list_min (iteratorIndexPositions st)).
  assert (Hm_le : forall j, j < N -> m <= pos_of st j).
  { intros j Hj. apply list_min_le. unfold pos_of.
    apply list_elem_of_lookup_total_2. lia. }
  assert (Hm_in : exists j0, j0 < N /\ pos_of st j0 = m).
  { destruct (list_elem_of_lookup_total_1 (iteratorIndexPositions st) m) as (j0 & Hj0 & Heq).
    - apply list_min_elem. intros Hnil. rewrite Hnil in Hlen. simpl in Hlen. lia.
    - exists j0. unfold pos_of. split; [lia|]. exact Heq. }
  destruct Hm_in as (j0 & Hj0 & Hj0m).
  assert (HmB : m <= length (streamBuffer st)).
  { rewrite <- Hj0m. apply Hpos. lia. }
  assert (Hpos' : forall j, j < N -> pos_of st' j = pos_of st j - m).
  { intros j Hj. unfold st', cleanupStreamBuffer, pos_of, set_positions. cbn [iteratorIndexPositions].
    rewrite (list_lookup_total_fmap (A:=nat) (B:=nat) (fun p => p - m)); [reflexivity|lia]. }
  assert (HB' : streamBuffer st' = drop m (streamBuffer st)) by reflexivity.
  assert (HE' : elems_pulled st' = elems_pulled st) by reflexivity.
  assert (Hoff : offset st' = offset st + m).
  { unfold offset. rewrite HE', HB', length_drop. lia. }
  split; [unfold st', cleanupStreamBuffer; simpl; rewrite length_fmap; exact Hlen|].
  split.
  { intros j Hj. rewrite Hpos' by exact Hj. rewrite HB', length_drop.
    specialize (Hpos j Hj). lia. }
  split; [rewrite HE', HB', length_drop; lia|].
  split.
  { intros k Hk. rewrite HB' in Hk |- *. rewrite length_drop in Hk.
    rewrite lookup_drop, Hbuf by lia. f_equal. lia. }
  split; [exists j0; split; [exact Hj0|]; rewrite Hpos' by exact Hj0; lia|].
  split.
  { intros j Hj. unfold lpos. rewrite Hoff, Hpos' by exact Hj.
    specialize (Hm_le j Hj). lia. }
  intros (j1 & Hj1 & Hj1B). exists j1. split; [exact Hj1|].
  rewrite Hpos' by exact Hj1. rewrite HB', length_drop. lia.
Qed.

Lemma Inv_elems (S : list val) (N : nat) (st : splitter) :
  Inv S N st ->
  elems_pulled st <= length S /\
  (streamExhausted st = true -> elems_pulled st = length S) /\
  (streamExhausted st = false -> elems_pulled st = pulls st).
Proof.
  intros HI. pose proof (inv_pulls _ _ _ HI) as Hp. unfold elems_pulled.
  destruct (streamExhausted st); [rewrite Hp|]; split; intros; try lia; congruence.
Qed.

Lemma Inv_lpos_le (S : list val) (N : nat) (st : splitter) (j : nat) :
  Inv S N st -> j < N -> lpos st j <= length S.
Proof.
  intros HI Hj. destruct (Inv_elems _ _ _ HI) as (H1 & _ & _).
  pose proof (inv_pos _ _ _ HI j Hj). pose proof (inv_buflen _ _ _ HI).
  unfold lpos, offset. lia.
Qed.

Lemma pos_of_insert (st : splitter) (P : list nat) (i j x : nat) :
  i < length P ->
  pos_of (set_positions (<[i := x]> P) st) j = if bool_decide (i = j) then x else P !!! j.
Proof.
  intros Hi. unfold pos_of, set_positions. cbn [iteratorIndexPositions].
  rewrite list_lookup_total_insert. case_bool_decide; case_decide; subst; try lia; auto.
  all: exfalso; match goal with H : ¬ _ |- _ => apply H end; auto.
Qed.

Lemma done_of_insert (st : splitter) (D : list bool) (i j : nat) (x : bool) :
  i < length D ->
  done_of (set_dones (<[i := x]> D) st) j = if bool_decide (i = j) then x else D !!! j.
Proof.
  intros Hi. unfold done_of, set_dones. cbn [dones].
  rewrite list_lookup_total_insert. case_bool_decide; case_decide; subst; try lia; auto.
  all: exfalso; match goal with H : ¬ _ |- _ => apply H end; auto.
Qed.

(** Step 2 of [next()]: the cursor reads [streamBuffer[p]]. *)
Lemma next_read_spec (S : list val) (N : nat) (st : splitter) (i : nat) (v : val) :
  Inv S N st -> i < N ->
  streamBuffer st !! pos_of st i = Some v ->
  let st' := cleanupStreamBuffer
               (set_positions (<[i := Datatypes.S (pos_of st i)]> (iteratorIndexPositions st)) st) in
  Inv S N st' /\ RYield v = expected S (lpos st i) /\ lpos st i < length S /\
  lpos st' i = Datatypes.S (lpos st i) /\
  (forall j, j < N -> j <> i -> lpos st' j = lpos st j) /\
  dones st' = dones st /\ streamExhausted st' = streamExhausted st /\ pulls st' = pulls st.
Proof.
  intros HI Hi Hv st'.
  set (stA := set_positions (<[i := Datatypes.S (pos_of st i)]> (iteratorIndexPositions st)) st).
  pose proof (lookup_lt_Some _ _ _ Hv) as Hlt.
  destruct (Inv_elems _ _ _ HI) as (He & _ & _).
  pose proof (inv_npos _ _ _ HI) as HnP.
  assert (HBA : streamBuffer stA = streamBuffer st) by reflexivity.
  assert (HEA : elems_pulled stA = elems_pulled st) by reflexivity.
  assert (HOA : offset stA = offset st) by reflexivity.
  assert (HPA : forall j, pos_of stA j = if bool_decide (i = j) then Datatypes.S (pos_of st i)
                                         else pos_of st j).
  { intros j. unfold stA. rewrite pos_of_insert by lia. reflexivity. }
  assert (HlenA : length (iteratorIndexPositions stA) = N).
  { unfold stA, set_positions; cbn [iteratorIndexPositions]. rewrite length_insert. exact HnP. }
  assert (HposA : forall j, j < N -> pos_of stA j <= length (streamBuffer stA)).
  { intros j Hj. rewrite HPA, HBA. case_bool_decide; [subst; lia|].
    apply (inv_pos _ _ _ HI j Hj). }
  assert (HN : 1 <= N) by lia.
  destruct (cleanup_spec S N stA HlenA HN HposA)
    as (Hl' & Hp' & Hb' & Hbuf' & Hmin' & Hlpos' & Hmax').
  { rewrite HBA, HEA. apply (inv_buflen _ _ _ HI). }
  { intros k Hk. rewrite HBA, HOA in *. apply (inv_buf _ _ _ HI k Hk). }
  fold st' in Hl', Hp', Hb', Hbuf', Hmin', Hlpos', Hmax'.
  assert (Hlp : lpos st i < length S).
  { pose proof (inv_buflen _ _ _ HI). unfold lpos, offset in *. lia. }
  split.
  { constructor; try assumption.
    - apply (inv_items _ _ _ HI).
    - apply (inv_err _ _ _ HI).
    - apply (inv_noerror _ _ _ HI).
    - apply (inv_ndone _ _ _ HI).
    - apply (inv_pulls _ _ _ HI).
    - apply Hmax'. destruct (inv_max _ _ _ HI) as (j & Hj & Hjm).
      exists j. split; [exact Hj|]. rewrite HPA, HBA. case_bool_decide; [subst; lia|exact Hjm]. }
  split.
  { unfold expected, lpos. rewrite <- (inv_buf _ _ _ HI _ Hlt), Hv. reflexivity. }
  split; [exact Hlp|].
  split.
  { rewrite Hlpos' by exact Hi. unfold lpos. rewrite HOA, HPA. case_bool_decide; [lia|congruence]. }
  split.
  { intros j Hj Hji. rewrite Hlpos' by exact Hj. unfold lpos. rewrite HOA, HPA.
    case_bool_decide; [congruence|reflexivity]. }
  repeat split; reflexivity.
Qed.

(** Step 3 of [next()], when the pull yields a fresh element [v]. *)
Lemma next_pull_spec (S : list val) (N : nat) (st : splitter) (i : nat) (v : val) :
  Inv S N st -> i < N ->
  streamBuffer st !! pos_of st i = None ->
  streamExhausted st = false ->
  source_pull (src_items st) (src_err st) (pulls st) = PValue v ->
  let st1 := set_pulls (Datatypes.S (pulls st)) st in
  let st' := cleanupStreamBuffer
               (set_positions (<[i := Datatypes.S (pos_of st i)]> (iteratorIndexPositions st1))
                  (set_buffer (streamBuffer st1 ++ [v]) st1)) in
  Inv S N st' /\ RYield v = expected S (lpos st i) /\ lpos st i < length S /\
  lpos st' i = Datatypes.S (lpos st i) /\
  (forall j, j < N -> j <> i -> lpos st' j = lpos st j) /\
  dones st' = dones st /\ streamExhausted st' = false /\ elems_pulled st' = Datatypes.S (elems_pulled st).
Proof.
  intros HI Hi Hnone Hex Hsrc st1 st'.
  set (stB := set_positions (<[i := Datatypes.S (pos_of st i)]> (iteratorIndexPositions st1))
                (set_buffer (streamBuffer st1 ++ [v]) st1)).
  destruct (Inv_elems _ _ _ HI) as (He & _ & Hep). specialize (Hep Hex).
  pose proof (inv_npos _ _ _ HI) as HnP.
  pose proof (inv_buflen _ _ _ HI) as HbL.
  assert (Hp : pos_of st i = length (streamBuffer st)).
  { apply lookup_ge_None in Hnone. pose proof (inv_pos _ _ _ HI i Hi). lia. }
  rewrite (inv_items _ _ _ HI), (inv_err _ _ _ HI) in Hsrc. unfold source_pull in Hsrc.
  destruct (S !! pulls st) as [w|] eqn:Hw; [|discriminate]. injection Hsrc as ->.
  pose proof (lookup_lt_Some _ _ _ Hw) as HpS.
  assert (HBB : streamBuffer stB = streamBuffer st ++ [v]) by reflexivity.
  assert (HEB : elems_pulled stB = Datatypes.S (elems_pulled st)).
  { unfold elems_pulled, stB, st1, set_positions, set_buffer, set_pulls; cbn. rewrite Hex. lia. }
  assert (HOB : offset stB = offset st).
  { unfold offset. rewrite HEB, HBB, length_app. simpl. lia. }
  assert (HPB : forall j, pos_of stB j = if bool_decide (i = j) then Datatypes.S (pos_of st i)
                                         else pos_of st j).
  { intros j. unfold stB. rewrite pos_of_insert by (unfold st1, set_pulls; cbn; lia). reflexivity. }
  assert (HlenB : length (iteratorIndexPositions stB) = N).
  { unfold stB, set_positions; cbn [iteratorIndexPositions]. rewrite length_insert. exact HnP. }
  assert (HposB : forall j, j < N -> pos_of stB j <= length (streamBuffer stB)).
  { intros j Hj. rewrite HPB, HBB, length_app. simpl. case_bool_decide; [subst; lia|].
    pose proof (inv_pos _ _ _ HI j Hj). lia. }
  assert (HN : 1 <= N) by lia.
  destruct (cleanup_spec S N stB HlenB HN HposB)
    as (Hl' & Hp' & Hb' & Hbuf' & Hmin' & Hlpos' & Hmax').
  { rewrite HBB, HEB, length_app. simpl. lia. }
  { intros k Hk. rewrite HBB, HOB in *. rewrite length_app in Hk. simpl in Hk.
    destruct (decide (k < length (streamBuffer st))).
    - rewrite lookup_app_l by lia. apply (inv_buf _ _ _ HI k). lia.
    - assert (k = length (streamBuffer st)) as -> by lia.
      rewrite lookup_app_r, Nat.sub_diag by lia. simpl. rewrite <- Hw. f_equal.
      unfold offset. lia. }
  fold st' in Hl', Hp', Hb', Hbuf', Hmin', Hlpos', Hmax'.
  assert (Hlp : lpos st i = pulls st).
  { unfold lpos, offset. lia. }
  split.
  { constructor; try assumption.
    - apply (inv_items _ _ _ HI).
    - apply (inv_err _ _ _ HI).
    - apply (inv_noerror _ _ _ HI).
    - apply (inv_ndone _ _ _ HI).
    - unfold st', stB, st1, cleanupStreamBuffer, set_positions, set_buffer, set_pulls; cbn.
      rewrite Hex. lia.
    - apply Hmax'. exists i. split; [exact Hi|]. rewrite HPB, HBB, length_app.
      case_bool_decide; [simpl; lia|congruence]. }
  split; [unfold expected; rewrite Hlp, Hw; reflexivity|].
  split; [lia|].
  split.
  { rewrite Hlpos' by exact Hi. unfold lpos. rewrite HOB, HPB. case_bool_decide; [lia|congruence]. }
  split.
  { intros j Hj Hji. rewrite Hlpos' by exact Hj. unfold lpos. rewrite HOB, HPB.
    case_bool_decide; [congruence|reflexivity]. }
  split; [reflexivity|]. split; [exact Hex|].
  rewrite <- HEB. reflexivity.
Qed.

(** Marking a cursor [done] touches nothing the invariant looks at. *)
Lemma Inv_set_dones (S : list val) (N : nat) (st : splitter) (D : list bool) :
  Inv S N st -> length D = N -> Inv S N (set_dones D st).
Proof.
  intros HI HD. destruct HI. constructor; assumption.
Qed.

Lemma lpos_set_dones (st : splitter) (D : list bool) (j : nat) :
  lpos (set_dones D st) j = lpos st j.
Proof. reflexivity. Qed.

(** One [next()] call on cursor [i]. *)
Lemma next_core (S : list val) (N : nat) (st : splitter) (i : nat) (r : result) (st' : splitter) :
  Inv S N st -> i < N -> next i st = (r, st') ->
  Inv S N st' /\
  (streamExhausted st = true -> streamExhausted st' = true /\ pulls st' = pulls st) /\
  (forall j, j < N -> j <> i -> lpos st' j = lpos st j /\ done_of st' j = done_of st j) /\
  (done_of st i = true -> r = RDone /\ st' = st) /\
  (done_of st i = false ->
     r = expected S (lpos st i) /\
     (lpos st i < length S -> lpos st' i = Datatypes.S (lpos st i) /\ done_of st' i = false) /\
     (lpos st i = length S -> lpos st' i = lpos st i /\ done_of st' i = true /\
                               streamExhausted st' = true)).
Proof.
  intros HI Hi Hnext.
  pose proof (Inv_lpos_le _ _ _ _ HI Hi) as HlS.
  destruct (Inv_elems _ _ _ HI) as (He & Hex1 & Hex0).
  pose proof (inv_npos _ _ _ HI) as HnP. pose proof (inv_ndone _ _ _ HI) as HnD.
  unfold next in Hnext. destruct (done_of st i) eqn:Hd.
  { injection Hnext as <- <-. split; [exact HI|]. split; [auto|].
    split; [auto|]. split; [auto|discriminate]. }
  destruct (streamBuffer st !! pos_of st i) as [v|] eqn:Hb.
  { injection Hnext as <- <-.
    destruct (next_read_spec S N st i v HI Hi Hb)
      as (HI' & Hr & Hlt & Hli & Hlj & HD & HE & HP).
    split; [exact HI'|]. split; [intros H; rewrite HE, HP; auto|].
    split; [intros j Hj Hji; split; [auto|unfold done_of; rewrite HD; reflexivity]|].
    split; [discriminate|]. intros _. split; [exact Hr|].
    split; [intros _; split; [exact Hli|unfold done_of; rewrite HD; exact Hd]|lia]. }
  assert (Hp : pos_of st i = length (streamBuffer st)).
  { apply lookup_ge_None in Hb. pose proof (inv_pos _ _ _ HI i Hi). lia. }
  assert (HD : forall st0 : splitter, length (dones st0) = N -> forall j, j < N ->
            done_of (set_dones (<[i := true]> (dones st0)) st0) j =
            if bool_decide (i = j) then true else done_of st0 j).
  { intros st0 Hst0 j Hj. rewrite done_of_insert by lia. reflexivity. }
  unfold getNextStreamElement in Hnext. destruct (streamExhausted st) eqn:Hex.
  { (* the source was already exhausted *)
    injection Hnext as <- <-.
    assert (HL : lpos st i = length S).
    { unfold lpos, offset. rewrite Hp. specialize (Hex1 eq_refl).
      pose proof (inv_buflen _ _ _ HI). lia. }
    split; [apply Inv_set_dones; [exact HI|rewrite length_insert; exact HnD]|].
    split; [intros _; split; [exact Hex|reflexivity]|].
    split; [intros j Hj Hji; rewrite lpos_set_dones, HD by assumption;
            case_bool_decide; [congruence|auto]|].
    split; [discriminate|]. intros _.
    split; [unfold expected; rewrite HL, lookup_ge_None_2 by lia; reflexivity|].
    split; [lia|]. intros _. rewrite lpos_set_dones, HD by assumption.
    case_bool_decide; [|congruence]. split; [reflexivity|split; [reflexivity|exact Hex]]. }
  rewrite (inv_noerror _ _ _ HI) in Hnext. unfold pull_source in Hnext.
  destruct (source_pull (src_items st) (src_err st) (pulls st)) as [v| |e] eqn:Hs.
  - injection Hnext as <- <-.
    destruct (next_pull_spec S N st i v HI Hi Hb Hex Hs)
      as (HI' & Hr & Hlt & Hli & Hlj & HD' & HE & HP).
    split; [exact HI'|]. split; [discriminate|].
    split; [intros j Hj Hji; split; [auto|exact (f_equal (fun d => d !!! j) HD')]|].
    split; [discriminate|]. intros _. split; [exact Hr|].
    split; [intros _; split; [exact Hli|rewrite <- Hd; exact (f_equal (fun d => d !!! i) HD')]|lia].
  - (* the pull reports the end of the source *)
    injection Hnext as <- Hst'.
    rewrite (inv_items _ _ _ HI), (inv_err _ _ _ HI) in Hs. unfold source_pull in Hs.
    destruct (S !! pulls st) eqn:Hw; [discriminate|].
    apply lookup_ge_None in Hw. specialize (Hex0 eq_refl).
    assert (HL : lpos st i = length S).
    { unfold lpos, offset. rewrite Hp. pose proof (inv_buflen _ _ _ HI). lia. }
    set (st1 := set_exhausted true (set_pulls (Datatypes.S (pulls st)) st)).
    assert (HI1 : Inv S N st1).
    { destruct HI. constructor; try assumption; unfold st1, set_exhausted, set_pulls; cbn.
      - lia.
      - unfold elems_pulled in *; cbn. rewrite Hex in *. lia.
      - intros k Hk. rewrite inv_buf0 by exact Hk. f_equal. unfold offset, elems_pulled; cbn.
        rewrite Hex. reflexivity. }
    assert (HL1 : forall j, lpos st1 j = lpos st j).
    { intros j. unfold lpos, offset, elems_pulled, st1, set_exhausted, set_pulls; cbn.
      unfold pos_of; cbn. rewrite Hex. lia. }
    assert (Hst1 : st' = set_dones (<[i := true]> (dones st1)) st1)
      by (rewrite <- Hst'; reflexivity).
    rewrite Hst1. clear Hst' Hst1.
    split; [apply Inv_set_dones; [exact HI1|rewrite length_insert; exact HnD]|].
    split; [discriminate|].
    assert (HnD1 : length (dones st1) = N) by exact HnD.
    split; [intros j Hj Hji; rewrite lpos_set_dones, HD, HL1 by assumption;
            case_bool_decide; [congruence|auto]|].
    split; [discriminate|]. intros _.
    split; [unfold expected; rewrite HL, lookup_ge_None_2 by lia; reflexivity|].
    split; [lia|]. intros _. rewrite lpos_set_dones, HD, HL1 by assumption.
    case_bool_decide; [|congruence]. auto.
  - rewrite (inv_items _ _ _ HI), (inv_err _ _ _ HI) in Hs. unfold source_pull in Hs.
    destruct (S !! pulls st); discriminate.
Qed.

Lemma Inv_done_step (S : list val) (N : nat) (st : splitter) (i : nat) (r : result) (st' : splitter) :
  Inv S N st -> Inv_done N st -> i < N -> next i st = (r, st') -> Inv_done N st'.
Proof.
  intros HI HD Hi Hn.
  destruct (next_core S N st i r st' HI Hi Hn) as (HI' & Hex & Hj & Hdone & Hlive).
  assert (Helems : streamExhausted st = true -> elems_pulled st' = elems_pulled st).
  { intros H. destruct (Hex H) as (H1 & H2). unfold elems_pulled. rewrite H1, H2, H. reflexivity. }
  intros j Hjn Hdj. destruct (decide (j = i)) as [->|Hji].
  - destruct (done_of st i) eqn:Hdi.
    + destruct (Hdone eq_refl) as (_ & ->). apply HD; assumption.
    + destruct (Hlive eq_refl) as (_ & Hlt & Heq).
      pose proof (Inv_lpos_le _ _ _ _ HI Hi).
      destruct (decide (lpos st i < length S)) as [Hl|Hl].
      * destruct (Hlt Hl) as (_ & Hf). congruence.
      * destruct (Heq ltac:(lia)) as (H1 & _ & H3). split; [exact H3|].
        destruct (Inv_elems _ _ _ HI') as (_ & He & _). rewrite He by exact H3. lia.
  - destruct (Hj j Hjn Hji) as (Hl & Hd). rewrite Hd in Hdj.
    destruct (HD j Hjn Hdj) as (H1 & H2). split; [apply (Hex H1)|].
    rewrite Hl, Helems by exact H1. exact H2.
Qed.

Lemma expected_beyond (S : list val) (k c : nat) :
  length S <= k -> map (expected S) (seq k c) = replicate c RDone.
Proof.
  revert k. induction c as [|c IH]; intros k Hk; [reflexivity|].
  simpl. rewrite IH by lia. unfold expected. rewrite lookup_ge_None_2 by lia. reflexivity.
Qed.

Lemma expected_prefix (S : list val) (c m : nat) :
  c <= m -> map (expected S) (seq 0 c) = take c (map RYield S ++ replicate m RDone).
Proof.
  revert c m. induction S as [|x S IH]; intros c m Hcm.
  - rewrite expected_beyond by (simpl; lia). simpl.
    rewrite take_replicate. f_equal. lia.
  - destruct c as [|c]; [reflexivity|]. destruct m as [|m]; [lia|].
    simpl. f_equal. rewrite <- seq_shift, map_map.
    change (map (fun k => expected (x :: S) (Datatypes.S k)) (seq 0 c))
      with (map (expected S) (seq 0 c)).
    rewrite (IH c (Datatypes.S m)) by lia. reflexivity.
Qed.

(** Every reachable state over a finite source satisfies both invariants,
    and cursor [i] has seen the results [expected] from its position on. *)
Lemma run_spec (S : list val) (N : nat) (ops : list nat) (st : splitter) (i : nat) :
  Inv S N st -> Inv_done N st -> Forall (fun j => j < N) ops -> i < N ->
  results_of i (fst (run ops st)) = map (expected S) (seq (lpos st i) (calls_to i ops)) /\
  Inv S N (snd (run ops st)) /\ Inv_done N (snd (run ops st)).
Proof.
  revert st. induction ops as [|op ops IH]; intros st HI HD Hops Hi.
  - simpl. auto.
  - inversion Hops as [|? ? Hop Hops']; subst.
    simpl. destruct (next op st) as [r st1] eqn:Hn.
    destruct (run ops st1) as [tr st2] eqn:Hr. simpl.
    pose proof (Inv_done_step S N st op r st1 HI HD Hop Hn) as HD1.
    destruct (next_core S N st op r st1 HI Hop Hn) as (HI1 & _ & Hj & Hdone & Hlive).
    destruct (IH st1 HI1 HD1 Hops' Hi) as (Hres & HI2 & HD2).
    rewrite Hr in Hres, HI2, HD2. simpl in Hres, HI2, HD2.
    split; [|split; assumption].
    case_bool_decide as Hopi.
    + subst op. simpl. rewrite Hres.
      destruct (done_of st i) eqn:Hdi.
      * destruct (Hdone eq_refl) as (-> & ->).
        destruct (HD i Hi Hdi) as (Hx & Hl).
        destruct (Inv_elems _ _ _ HI) as (_ & He & _). rewrite He in Hl by exact Hx.
        f_equal; [unfold expected; rewrite Hl, lookup_ge_None_2 by lia; reflexivity|].
        rewrite !expected_beyond by lia. reflexivity.
      * destruct (Hlive eq_refl) as (Hrv & Hlt & Heq). rewrite Hrv. f_equal.
        pose proof (Inv_lpos_le _ _ _ _ HI Hi).
        destruct (decide (lpos st i < length S)) as [Hl|Hl].
        -- rewrite (proj1 (Hlt Hl)). reflexivity.
        -- destruct (Heq ltac:(lia)) as (-> & _).
           rewrite !expected_beyond by lia. reflexivity.
    + simpl. rewrite Hres. rewrite (proj1 (Hj i Hi ltac:(congruence))). reflexivity.
Qed.

Lemma createTeeIterators_nat (src : val) (items : list val) (err : option val) (N : nat) (st0 : splitter) :
  iterator_of src = IterSome items err ->
  createTeeIterators [src; num_of_nat N] = inr st0 -> st0 = init_splitter items err N.
Proof.
  intros Hit H. unfold createTeeIterators, num_of_nat in H. rewrite Hit in H.
  rewrite Qfloor_Z in H. destruct (valid_array_length (Z.of_nat N)); [|discriminate].
  injection H as <-. rewrite Nat2Z.id. reflexivity.
Qed.

Lemma list_max_le (l : list nat) (b : nat) : (forall x, x ∈ l -> x <= b) -> list_max l <= b.
Proof.
  induction l as [|x l IH]; intros H; simpl; [lia|].
  apply Nat.max_lub; [apply H; left|apply IH; intros y Hy; apply H; right; exact Hy].
Qed.

Lemma list_max_ge (l : list nat) (x : nat) : x ∈ l -> x <= list_max l.
Proof.
  induction l as [|y l IH]; intros H; [inversion H|]. simpl.
  apply elem_of_cons in H as [->|H]; [lia|]. specialize (IH H). lia.
Qed.

Lemma reachable_from_split (S : list val) (N : nat) (st0 : splitter) (ops : list nat) :
  createTeeIterators [VArr S; num_of_nat N] = inr st0 -> 1 <= N ->
  Forall (fun j => j < N) ops ->
  Inv S N (snd (run ops st0)) /\ Inv_done N (snd (run ops st0)) /\
  (forall i, i < N -> results_of i (fst (run ops st0)) =
                      map (expected S) (seq 0 (calls_to i ops))).
Proof.
  intros Hc HN Hops.
  rewrite (createTeeIterators_nat (VArr S) S None N st0 eq_refl Hc).
  split; [|split].
  - apply (run_spec S N ops _ 0 (Inv_init S N HN) (Inv_done_init N S) Hops ltac:(lia)).
  - apply (run_spec S N ops _ 0 (Inv_init S N HN) (Inv_done_init N S) Hops ltac:(lia)).
  - intros i Hi.
    destruct (run_spec S N ops _ i (Inv_init S N HN) (Inv_done_init N S) Hops Hi) as (H & _).
    rewrite H. unfold lpos, offset, elems_pulled, pos_of, init_splitter; cbn.
    rewrite lookup_total_replicate_2 by lia. reflexivity.
Qed.

(** C1: for every finite source [S], every [N >= 1] and every interleaving
    [ops] of [next()] calls on the [N] cursors returned by
    [split(S, N)] (= [Array.tee(S, N)]), the results seen by cursor [i] are,
    in order, the elements of [S] followed by [done]: exactly what direct
    iteration of [S] gives for as many calls. *)
Theorem split_cursor_yields_source (S : list val) (N : nat) (st0 : splitter)
    (ops : list nat) (i : nat) :
  createTeeIterators [VArr S; num_of_nat N] = inr st0 ->
  Forall (fun j => j < N) ops -> i < N ->
  results_of i (fst (run ops st0)) =
  take (calls_to i ops) (map RYield S ++ replicate (calls_to i ops) RDone).
Proof.
  intros Hc Hops Hi.
  destruct (reachable_from_split S N st0 ops Hc ltac:(lia) Hops) as (_ & _ & H).
  rewrite (H i Hi). apply expected_prefix. lia.
Qed.

Lemma split_cursor_yields_source_witness :
  createTeeIterators [VArr [VNum 10; VNum 20; VNum 30]; num_of_nat 2] =
    inr (init_splitter [VNum 10; VNum 20; VNum 30] None 2) /\
  results_of 1 (fst (run [0;0;0;0;1;1;1;1] (init_splitter [VNum 10; VNum 20; VNum 30] None 2))) =
  [RYield (VNum 10); RYield (VNum 20); RYield (VNum 30); RDone].
Proof.
  split; [reflexivity|].
  rewrite (split_cursor_yields_source [VNum 10; VNum 20; VNum 30] 2
             (init_splitter [VNum 10; VNum 20; VNum 30] None 2) [0;0;0;0;1;1;1;1] 1).
  - reflexivity.
  - reflexivity.
  - repeat constructor; lia.
  - lia.
Defined.

(** C2: when every cursor has been drained, the source iterator's [next()]
    has been called exactly [|S| + 1] times ([|S|] elements and one final
    [done]); at no point is it called more often, whatever [N] and the
    interleaving. *)
Theorem split_source_pulled_once (S : list val) (N : nat) (st0 : splitter) (ops : list nat) :
  createTeeIterators [VArr S; num_of_nat N] = inr st0 -> 1 <= N ->
  Forall (fun j => j < N) ops ->
  pulls (snd (run ops st0)) <= Datatypes.S (length S) /\
  ((forall i, i < N -> done_of (snd (run ops st0)) i = true) ->
   pulls (snd (run ops st0)) = Datatypes.S (length S)).
Proof.
  intros Hc HN Hops.
  destruct (reachable_from_split S N st0 ops Hc HN Hops) as (HI & HD & _).
  pose proof (inv_pulls _ _ _ HI) as Hp.
  split; [destruct (streamExhausted _); lia|].
  intros Hall. destruct (HD 0 ltac:(lia) (Hall 0 ltac:(lia))) as (Hx & _).
  rewrite Hx in Hp. exact Hp.
Qed.

Lemma split_source_pulled_once_witness :
  1 <= 3 /\ pulls (snd (run [0;1;2;0;1;2;0;1;2] (init_splitter [VNum 1; VNum 2] None 3))) = 3.
Proof.
  split; [lia|].
  apply (proj2 (split_source_pulled_once [VNum 1; VNum 2] 3 _ [0;1;2;0;1;2;0;1;2]
                  eq_refl ltac:(lia) ltac:(repeat constructor; lia))).
  intros i Hi. destruct i as [|[|[|i]]]; [reflexivity|reflexivity|reflexivity|lia].
Defined.

(** C3, as stated, fails: with [S = [10]] and [N = 2], after cursor 0 has
    read [10] and then seen the end, the buffer still holds [10] (cursor 1
    has not read it), while the only live cursor, 1, is at position 0 and
    the minimum over all cursors is 0: [1 <> 0 - 0]. *)
Lemma split_buffer_live_spread_counterexample :
  match createTeeIterators [VArr [VNum 10]; num_of_nat 2] with
  | inr st0 =>
      let st := snd (run [0; 0] st0) in
      live_positions st = [0] /\
      length (streamBuffer st) = 1 /\
      length (streamBuffer st) <>
        list_max (live_positions st) - list_min (iteratorIndexPositions st)
  | inl _ => False
  end.
Proof. vm_compute. split; [reflexivity|]. split; [reflexivity|]. discriminate. Qed.

(** C3 (amended): in every state reached by [next()] calls on the cursors of
    [split(S, N)], the buffer length is the maximum read position over ALL
    cursors (terminal ones included) minus the minimum read position over
    all cursors, that minimum is 0, and [0 <= position[i] <= buffer length]
    for every cursor. *)
Theorem split_buffer_spread (S : list val) (N : nat) (st0 : splitter) (ops : list nat) :
  createTeeIterators [VArr S; num_of_nat N] = inr st0 -> 1 <= N ->
  Forall (fun j => j < N) ops ->
  let st := snd (run ops st0) in
  length (streamBuffer st) =
    list_max (iteratorIndexPositions st) - list_min (iteratorIndexPositions st) /\
  list_min (iteratorIndexPositions st) = 0 /\
  (forall i, i < N -> 0 <= pos_of st i <= length (streamBuffer st)).
Proof.
  intros Hc HN Hops st.
  destruct (reachable_from_split S N st0 ops Hc HN Hops) as (HI & _ & _). fold st in HI.
  pose proof (inv_npos _ _ _ HI) as HnP.
  assert (Hall : forall x, x ∈ iteratorIndexPositions st -> x <= length (streamBuffer st)).
  { intros x Hx. apply list_elem_of_lookup_total_1 in Hx as (j & Hj & <-).
    apply (inv_pos _ _ _ HI). lia. }
  assert (Hmin : list_min (iteratorIndexPositions st) = 0).
  { destruct (inv_min _ _ _ HI) as (j & Hj & H0).
    assert (list_min (iteratorIndexPositions st) <= 0); [|lia].
    rewrite <- H0. apply list_min_le. apply list_elem_of_lookup_total_2. lia. }
  assert (Hmax : list_max (iteratorIndexPositions st) = length (streamBuffer st)).
  { apply Nat.le_antisymm; [apply list_max_le, Hall|].
    destruct (inv_max _ _ _ HI) as (j & Hj & Hm). rewrite <- Hm.
    apply list_max_ge. apply list_elem_of_lookup_total_2. lia. }
  split; [lia|]. split; [exact Hmin|].
  intros i Hi. split; [lia|]. apply (inv_pos _ _ _ HI i Hi).
Qed.

Lemma split_buffer_spread_witness :
  createTeeIterators [VArr [VNum 10]; num_of_nat 2] = inr (init_splitter [VNum 10] None 2) /\
  1 <= 2 /\
  length (streamBuffer (snd (run [0; 0] (init_splitter [VNum 10] None 2)))) = 1.
Proof.
  split; [reflexivity|]. split; [lia|].
  destruct (split_buffer_spread [VNum 10] 2 (init_splitter [VNum 10] None 2) [0; 0]
              eq_refl ltac:(lia) ltac:(repeat constructor; lia)) as (H & _).
  rewrite H. reflexivity.
Defined.






(** A terminal cursor keeps its logical position and stays terminal, and the
    invariant holds, whatever [next()] calls follow. *)
Lemma run_terminal_frozen (S : list val) (N : nat) (st : splitter) (ops : list nat) (i : nat) :
  Inv S N st -> i < N -> done_of st i = true -> Forall (fun j => j < N) ops ->
  Inv S N (snd (run ops st)) /\ lpos (snd (run ops st)) i = lpos st i /\
  done_of (snd (run ops st)) i = true.
Proof.
  revert st. induction ops as [|op ops IH]; intros st HI Hi Hd Hops; simpl; [auto|].
  inversion Hops as [|? ? Hop Hops']; subst.
  destruct (next op st) as [r st1] eqn:Hn.
  destruct (next_core S N st op r st1 HI Hop Hn) as (HI1 & _ & Hj & Hdone & _).
  assert (H1 : lpos st1 i = lpos st i /\ done_of st1 i = true).
  { destruct (decide (op = i)) as [->|Hne].
    - destruct (Hdone Hd) as (_ & ->). auto.
    - destruct (Hj i Hi ltac:(congruence)) as (-> & ->). auto. }
  destruct H1 as (Hl1 & Hd1).
  destruct (IH st1 HI1 Hi Hd1 Hops') as (G1 & G2 & G3).
  destruct (run ops st1) as [tr st2]. simpl in *. rewrite G2, Hl1. auto.
Qed.

Lemma pos_of_set_dones (st : splitter) (D : list bool) (j : nat) :
  pos_of (set_dones D st) j = pos_of st j.
Proof. reflexivity. Qed.

Lemma cursor_stop_state (st : splitter) (i : nat) :
  i < length (dones st) ->
  (if done_of st i then st else set_dones (<[i := true]> (dones st)) st) =
  set_dones (<[i := true]> (dones st)) st.
Proof.
  intros Hi. destruct (done_of st i) eqn:Hd; [|reflexivity].
  unfold set_dones. rewrite list_insert_id; [destruct st; reflexivity|].
  unfold done_of in Hd. rewrite <- Hd. apply list_lookup_lookup_total_lt. exact Hi.
Qed.

Lemma next_lpos_mono (S : list val) (N : nat) (st : splitter) (i j : nat) :
  Inv S N st -> i < N -> j < N -> lpos st j <= lpos (snd (next i st)) j.
Proof.
  intros HI Hi Hj. destruct (next i st) as [r st'] eqn:Hn. simpl.
  destruct (next_core S N st i r st' HI Hi Hn) as (_ & _ & Hother & Hdone & Hlive).
  destruct (decide (j = i)) as [->|Hne].
  - destruct (done_of st i) eqn:Hd.
    + destruct (Hdone eq_refl) as (_ & ->). lia.
    + destruct (Hlive eq_refl) as (_ & Hlt & Heq).
      pose proof (Inv_lpos_le _ _ _ _ HI Hi).
      destruct (decide (lpos st i < length S)) as [Hl|Hl].
      * rewrite (proj1 (Hlt Hl)). lia.
      * rewrite (proj1 (Heq ltac:(lia))). lia.
  - rewrite (proj1 (Hother j Hj Hne)). lia.
Qed.

(** The buffer's logical start never moves back: evicted elements stay gone. *)
Lemma run_offset_mono (S : list val) (N : nat) (st : splitter) (ops : list nat) :
  Inv S N st -> Forall (fun j => j < N) ops -> offset st <= offset (snd (run ops st)).
Proof.
  revert st. induction ops as [|op ops IH]; intros st HI Hops; simpl; [lia|].
  inversion Hops as [|? ? Hop Hops']; subst.
  destruct (next op st) as [r st1] eqn:Hn.
  destruct (next_core S N st op r st1 HI Hop Hn) as (HI1 & _).
  assert (Hle : offset st <= offset st1).
  { destruct (inv_min _ _ _ HI1) as (j0 & Hj0 & Hz).
    pose proof (next_lpos_mono S N st op j0 HI Hop Hj0) as Hm. rewrite Hn in Hm. simpl in Hm.
    unfold lpos in Hm. lia. }
  specialize (IH st1 HI1 Hops'). destruct (run ops st1) as [tr st2]. simpl in *. lia.
Qed.

(** C8: on a cursor [i] of [split(S, N)], in any reachable state, [return(v)]
    gives [{ value: v, done: true }] and [throw(e)] raises [e]; both only set
    cursor [i]'s [done] flag: buffer, source state, every read position and
    the other cursors' [done] flags are untouched. Afterwards, whatever
    [next()] calls follow, cursor [i] stays terminal, its logical read
    position (buffer offset + stored position; the stored value is only
    rebased by eviction, never advanced) is frozen, it still counts in the
    eviction minimum, and the buffer still starts at or before that
    position. *)
Theorem cursor_stop_frame (S : list val) (N : nat) (st0 : splitter) (ops ops' : list nat)
    (i : nat) (v e : val) :
  createTeeIterators [VArr S; num_of_nat N] = inr st0 ->
  Forall (fun j => j < N) ops -> Forall (fun j => j < N) ops' -> i < N ->
  let st := snd (run ops st0) in
  fst (cursor_return i v st) = (v, true) /\
  snd (cursor_return i v st) = set_dones (<[i := true]> (dones st)) st /\
  fst (cursor_throw i e st) = Thrown e /\
  snd (cursor_throw i e st) = set_dones (<[i := true]> (dones st)) st /\
  (forall j, j <> i -> done_of (set_dones (<[i := true]> (dones st)) st) j = done_of st j) /\
  let stc := snd (run ops' (set_dones (<[i := true]> (dones st)) st)) in
  done_of stc i = true /\ lpos stc i = lpos st i /\ pos_of stc i <= pos_of st i /\
  list_min (iteratorIndexPositions stc) <= pos_of stc i /\ offset stc <= lpos st i.
Proof.
  intros Hc Hops Hops' Hi st.
  destruct (reachable_from_split S N st0 ops Hc ltac:(lia) Hops) as (HI & _ & _).
  fold st in HI. pose proof (inv_ndone _ _ _ HI) as HnD.
  assert (Hst : (if done_of st i then st else set_dones (<[i := true]> (dones st)) st) =
                set_dones (<[i := true]> (dones st)) st) by (apply cursor_stop_state; lia).
  assert (Hdi : done_of (set_dones (<[i := true]> (dones st)) st) i = true).
  { rewrite done_of_insert by lia. case_bool_decide; [reflexivity|congruence]. }
  split; [unfold cursor_return; simpl; rewrite Hst, Hdi; reflexivity|].
  split; [unfold cursor_return; simpl; exact Hst|].
  split; [reflexivity|].
  split; [unfold cursor_throw; simpl; exact Hst|].
  split.
  { intros j Hji. rewrite done_of_insert by lia. case_bool_decide; [congruence|reflexivity]. }
  intros stc.
  assert (HI1 : Inv S N (set_dones (<[i := true]> (dones st)) st)).
  { apply Inv_set_dones; [exact HI|rewrite length_insert; exact HnD]. }
  destruct (run_terminal_frozen S N _ ops' i HI1 Hi Hdi Hops') as (HIc & Hl & Hd).
  fold stc in HIc, Hl, Hd. rewrite lpos_set_dones in Hl.
  pose proof (inv_npos _ _ _ HIc) as HnPc.
  split; [exact Hd|]. split; [exact Hl|].
  split.
  { pose proof (run_offset_mono S N _ ops' HI1 Hops') as Ho. fold stc in Ho.
    change (offset (set_dones (<[i:=true]> (dones st)) st)) with (offset st) in Ho.
    unfold lpos in Hl. lia. }
  split.
  { apply list_min_le. apply list_elem_of_lookup_total_2. lia. }
  unfold lpos in Hl |- *. lia.
Qed.

Lemma cursor_stop_frame_witness :
  let st := init_splitter [VNum 1; VNum 2; VNum 3] None 2 in
  createTeeIterators [VArr [VNum 1; VNum 2; VNum 3]; num_of_nat 2] = inr st /\
  fst (cursor_return 0 (VNum 42) (snd (run [0; 1] st))) = (VNum 42, true) /\
  lpos (snd (run [1; 1] (set_dones (<[0 := true]> (dones (snd (run [0; 1] st))))
                          (snd (run [0; 1] st))))) 0 = 1.
Proof.
  intros st. split; [reflexivity|].
  destruct (cursor_stop_frame [VNum 1; VNum 2; VNum 3] 2 st [0; 1] [1; 1] 0 (VNum 42) VUndef
              eq_refl ltac:(repeat constructor; lia) ltac:(repeat constructor; lia) ltac:(lia))
    as (H1 & _ & _ & _ & _ & _ & H7 & _).
  split; [exact H1|]. rewrite H7. reflexivity.
Defined.

Example ex_tee_consumers :
  option_map (fun '(r, _, _) => r)
    (teeConsumers (VArr [qnum 1; qnum 2; qnum 3; qnum 4]) (map AObj ex_consumers)) =
  Some (inr [VArr [qnum 2; qnum 4; qnum 6; qnum 8]; VArr [qnum 2; qnum 4]; qnum 10; VUndef]).
Proof. vm_compute. reflexivity. Qed.

(* ------------------------------------------------------------------ *)
(** ** The consumer loops over the cursors of [teeConsumers] *)

(** The [for ... of] loop over a live cursor replays the source from the
    cursor's position: it computes [body_fold] over the remaining elements,
    and, when it completes normally, leaves the other cursors untouched. *)
Lemma for_of_spec (S : list val) (N : nat) (fuel ci : nat) (d : desc) (lv : loop_vars)
    (k : nat) (st : splitter) (tr : list call) :
  Inv S N st -> Inv_done N st -> ci < N -> done_of st ci = false -> lpos st ci = k ->
  length S - k < fuel ->
  exists st',
    for_of fuel ci d lv k st tr =
      Some (fst (body_fold ci d lv k (drop k S) tr), st', snd (body_fold ci d lv k (drop k S) tr)) /\
    ((exists lv', fst (body_fold ci d lv k (drop k S) tr) = inr lv') ->
     Inv S N st' /\ Inv_done N st' /\
     forall j, j < N -> j <> ci -> lpos st' j = lpos st j /\ done_of st' j = done_of st j).
Proof.
  revert lv k st tr. induction fuel as [|fuel IH]; intros lv k st tr HI HD Hci Hd Hk Hf; [lia|].
  cbn [for_of]. destruct (next ci st) as [r st1] eqn:Hn.
  pose proof (Inv_done_step S N st ci r st1 HI HD Hci Hn) as HD1.
  destruct (next_core S N st ci r st1 HI Hci Hn) as (HI1 & _ & Hj & _ & Hlive).
  destruct (Hlive Hd) as (Hr & Hlt & Heq). clear Hlive.
  pose proof (Inv_lpos_le _ _ _ _ HI Hci) as Hle.
  destruct (decide (k < length S)) as [Hl|Hl].
  - destruct (lookup_lt_is_Some_2 S k Hl) as [x Hx].
    rewrite Hk in Hr. unfold expected in Hr. rewrite Hx in Hr. subst r.
    rewrite (drop_S S x k Hx). cbn [body_fold].
    destruct (Hlt ltac:(lia)) as (Hl1 & Hd1). rewrite Hk in Hl1.
    destruct (consumer_body ci d lv x k tr) as [[e|lv1] tr1].
    + exists (snd (cursor_return ci VUndef st1)). split; [reflexivity|].
      intros (lv' & H). discriminate.
    + destruct (IH lv1 (Datatypes.S k) st1 tr1 HI1 HD1 Hci Hd1 Hl1 ltac:(lia)) as (st' & Hfor & Hprop).
      exists st'. split; [exact Hfor|]. intros Hok.
      destruct (Hprop Hok) as (HI' & HD' & Hj'). split; [exact HI'|]. split; [exact HD'|].
      intros j Hjn Hji. destruct (Hj' j Hjn Hji) as (-> & ->). apply Hj; assumption.
  - assert (Hk' : k = length S) by lia.
    rewrite Hk in Hr. unfold expected in Hr. rewrite lookup_ge_None_2 in Hr by lia. subst r.
    rewrite drop_ge by lia. cbn [body_fold].
    exists st1. split; [reflexivity|]. intros _. split; [exact HI1|]. split; [exact HD1|].
    intros j Hjn Hji. apply Hj; assumption.
Qed.

(** The loop over the consumers, each on its own fresh cursor, computes
    [consumers_fold]. *)
Lemma run_consumers_spec (S : list val) (N : nat) (ds : list desc) (ci : nat)
    (st : splitter) (tr : list call) :
  Inv S N st -> Inv_done N st -> ci + length ds = N ->
  (forall j, ci <= j -> j < N -> lpos st j = 0 /\ done_of st j = false) ->
  exists st',
    run_consumers (Datatypes.S (length S)) ci ds st tr =
      Some (fst (consumers_fold S ci ds tr), st', snd (consumers_fold S ci ds tr)).
Proof.
  revert ci st tr. induction ds as [|d ds IH]; intros ci st tr HI HD HN Hfresh.
  - exists st. reflexivity.
  - cbn [length] in HN. destruct (Hfresh ci ltac:(lia) ltac:(lia)) as (Hl0 & Hd0).
    destruct (for_of_spec S N (Datatypes.S (length S)) ci d (init_vars d) 0 st tr
                HI HD ltac:(lia) Hd0 Hl0 ltac:(lia)) as (st1 & Hfor & Hprop).
    rewrite drop_0 in Hfor, Hprop. cbn [run_consumers consumers_fold]. rewrite Hfor.
    destruct (body_fold ci d (init_vars d) 0 S tr) as [[e|lv] tr1]; cbn [fst snd].
    + exists st1. reflexivity.
    + destruct (Hprop ltac:(eexists; reflexivity)) as (HI1 & HD1 & Hj1).
      destruct (IH (Datatypes.S ci) st1 tr1 HI1 HD1 ltac:(lia)) as (st2 & Hrun).
      { intros j Hj HjN. destruct (Hj1 j HjN ltac:(lia)) as (-> & ->). apply Hfresh; lia. }
      rewrite Hrun.
      destruct (consumers_fold S (Datatypes.S ci) ds tr1) as [[e|out] tr2]; exists st2; reflexivity.
Qed.

Lemma validate_consumers_length (cs : list arg) (ds : list desc) :
  validate_consumers cs = inr ds -> length ds = length cs.
Proof.
  revert ds. induction cs as [|c cs IH]; intros ds H; cbn in H.
  - injection H as <-. reflexivity.
  - destruct (validate_consumer c); [discriminate|].
    destruct (validate_consumers cs) as [e|ds']; [discriminate|].
    injection H as <-. cbn. f_equal. apply IH. reflexivity.
Qed.

(** [teeConsumers] on an array with well-formed consumers computes
    [consumers_fold] over the array. *)
Lemma teeConsumers_spec (S : list val) (cs : list arg) (ds : list desc) :
  cs <> [] -> validate_consumers cs = inr ds -> (Z.of_nat (length cs) < 2 ^ 32)%Z ->
  exists p,
    teeConsumers (VArr S) cs = Some (fst (consumers_fold S 0 ds []), p, snd (consumers_fold S 0 ds [])).
Proof.
  intros Hne Hv Hlen. pose proof (validate_consumers_length cs ds Hv) as Hl.
  assert (HN : 1 <= length ds) by (destruct cs; [congruence|cbn in Hl; lia]).
  assert (Hc : createTeeIterators [VArr S; num_of_nat (length ds)] =
               inr (init_splitter S None (length ds))).
  { unfold createTeeIterators, num_of_nat. cbn [iterator_of]. rewrite Qfloor_Z.
    unfold valid_array_length. rewrite Hl.
    replace ((0 <=? Z.of_nat (length cs))%Z && (Z.of_nat (length cs) <? 2 ^ 32)%Z) with true
      by (symmetry; apply andb_true_intro; split; [apply Z.leb_le|apply Z.ltb_lt]; lia).
    rewrite Nat2Z.id, <- Hl. reflexivity. }
  destruct (run_consumers_spec S (length ds) ds 0 (init_splitter S None (length ds)) []
              (Inv_init S _ HN) (Inv_done_init _ S) ltac:(lia)) as (st' & Hrun).
  { intros j _ Hj. unfold lpos, offset, elems_pulled, pos_of, done_of, init_splitter; cbn.
    rewrite !lookup_total_replicate_2 by lia. auto. }
  exists (pulls st'). unfold teeConsumers.
  destruct cs as [|c cs']; [congruence|]. rewrite Hv, Hc, Hrun. reflexivity.
Qed.

(** Each of the four loop bodies, over a run of elements. *)
Ltac body_step Hk Hf :=
  unfold consumer_body, call_fn; rewrite Hk, Hf;
  repeat first [ rewrite bool_decide_true by reflexivity
               | rewrite bool_decide_false by discriminate ];
  cbn -[num_of_nat].

Lemma body_fold_forEach (ci : nat) (d : desc) (f : list val -> val) (lv : loop_vars)
    (k : nat) (xs : list val) (tr : list call) :
  kind_of d = "forEach" -> d_fn d = Some (FFun f) ->
  fst (body_fold ci d lv k xs tr) = inr lv.
Proof.
  intros Hk Hf. revert k tr. induction xs as [|x xs IH]; intros k tr; [reflexivity|].
  cbn [body_fold]. body_step Hk Hf. apply IH.
Qed.

Lemma body_fold_map (ci : nat) (d : desc) (f : list val -> val) (m : list val) (r : val)
    (fl : list val) (k : nat) (xs : list val) (tr : list call) :
  kind_of d = "map" -> d_fn d = Some (FFun f) ->
  fst (body_fold ci d (mkVars m r fl) k xs tr) =
  inr (mkVars (m ++ map (fun ix : nat * val => f [ix.2; num_of_nat ix.1]) (indexed k xs)) r fl).
Proof.
  intros Hk Hf. revert m k tr. induction xs as [|x xs IH]; intros m k tr.
  - cbn. rewrite app_nil_r. reflexivity.
  - cbn [body_fold]. body_step Hk Hf. rewrite IH, <- app_assoc. reflexivity.
Qed.

Lemma body_fold_filter (ci : nat) (d : desc) (f : list val -> val) (m : list val) (r : val)
    (fl : list val) (k : nat) (xs : list val) (tr : list call) :
  kind_of d = "filter" -> d_fn d = Some (FFun f) ->
  fst (body_fold ci d (mkVars m r fl) k xs tr) =
  inr (mkVars m r (fl ++ map snd (filter (fun ix : nat * val => truthy (f [ix.2; num_of_nat ix.1]) = true)
                                    (indexed k xs)))).
Proof.
  intros Hk Hf. revert fl k tr. induction xs as [|x xs IH]; intros fl k tr.
  - cbn. rewrite app_nil_r. reflexivity.
  - cbn [body_fold]. body_step Hk Hf.
    destruct (truthy (f [x; num_of_nat k])) eqn:Ht.
    + rewrite decide_True by reflexivity. rewrite IH, <- app_assoc. reflexivity.
    + rewrite decide_False by discriminate. apply IH.
Qed.

(** From an index [k > 0], or from a defined accumulator, every element is
    folded in with a call [fn(accumulator, element, index)]. *)
Lemma body_fold_reduce_from (ci : nat) (d : desc) (f : list val -> val) (m : list val)
    (acc : val) (fl : list val) (k : nat) (xs : list val) (tr : list call) :
  kind_of d = "reduce" -> d_fn d = Some (FFun f) ->
  (k <> 0 \/ is_undefined acc = false) ->
  body_fold ci d (mkVars m acc fl) k xs tr =
  (inr (mkVars m (fst (reduce_from f acc k xs)) fl),
   tr ++ map (pair ci) (snd (reduce_from f acc k xs))).
Proof.
  intros Hk Hf. revert acc k tr. induction xs as [|x xs IH]; intros acc k tr Hs.
  - cbn. rewrite app_nil_r. reflexivity.
  - cbn [body_fold]. body_step Hk Hf.
    replace (bool_decide (k = 0) && is_undefined acc) with false
      by (destruct Hs as [Hs|Hs]; [rewrite bool_decide_false by exact Hs|rewrite Hs, andb_false_r];
          reflexivity).
    cbn [reduce_from]. rewrite IH by (left; discriminate).
    destruct (reduce_from f (f [acc; x; num_of_nat k]) (Datatypes.S k) xs) as [a cs].
    cbn. rewrite <- app_assoc. reflexivity.
Qed.

Lemma body_fold_reduce (ci : nat) (d : desc) (f : list val -> val) (m : list val)
    (acc : val) (fl : list val) (xs : list val) (tr : list call) :
  kind_of d = "reduce" -> d_fn d = Some (FFun f) ->
  body_fold ci d (mkVars m acc fl) 0 xs tr =
  (inr (mkVars m (fst (reduce_run f acc xs)) fl), tr ++ map (pair ci) (snd (reduce_run f acc xs))).
Proof.
  intros Hk Hf. unfold reduce_run. destruct (is_undefined acc) eqn:Hu.
  - destruct xs as [|x xs].
    + cbn. rewrite app_nil_r. reflexivity.
    + cbn [body_fold]. body_step Hk Hf. rewrite Hu. cbn.
      apply body_fold_reduce_from; [exact Hk|exact Hf|left; discriminate].
  - apply body_fold_reduce_from; [exact Hk|exact Hf|right; exact Hu].
Qed.

(** A single [reduce] consumer [{ kind: 'reduce', fn, initVal }] over an array. *)
Lemma tee_reduce_single (S : list val) (f : list val -> val) (init : option val) :
  exists p,
    teeConsumers (VArr S) [AObj (mkDesc (Some (VStr "reduce")) (Some (FFun f)) init)] =
    Some (inr [fst (reduce_run f (default VUndef init) S)], p,
          map (pair 0) (snd (reduce_run f (default VUndef init) S))).
Proof.
  set (d := mkDesc (Some (VStr "reduce")) (Some (FFun f)) init).
  destruct (teeConsumers_spec S [AObj d] [d] ltac:(discriminate) eq_refl ltac:(cbn; lia))
    as (p & H). exists p. rewrite H. cbn [consumers_fold].
  assert (Hi : init_vars d = mkVars [] (default VUndef init) []) by reflexivity.
  rewrite Hi, (body_fold_reduce 0 d f [] (default VUndef init) [] S [] eq_refl eq_refl).
  reflexivity.
Qed.

Ltac decide_strings :=
  repeat first [ rewrite bool_decide_true by reflexivity
               | rewrite bool_decide_false by (first [discriminate | assumption]) ].

Lemma known_kind_cases (d : desc) :
  known_kind d = true ->
  kind_of d = "map" \/ kind_of d = "filter" \/ kind_of d = "reduce" \/ kind_of d = "forEach".
Proof.
  unfold known_kind. rewrite bool_decide_eq_true. intros H.
  rewrite !elem_of_cons, elem_of_nil in H. tauto.
Qed.

Lemma known_kind_false (d : desc) :
  known_kind d = false ->
  kind_of d <> "map" /\ kind_of d <> "filter" /\ kind_of d <> "reduce" /\ kind_of d <> "forEach".
Proof.
  unfold known_kind. rewrite bool_decide_eq_false. intros H.
  rewrite !elem_of_cons, elem_of_nil in H. tauto.
Qed.

Lemma well_formed_validate (d : desc) :
  well_formed_consumer (AObj d) = true -> validate_consumer (AObj d) = inr d.
Proof.
  cbn. destruct (d_kind d) as [[]|]; try discriminate.
  destruct (d_fn d) as [[]|]; try discriminate. reflexivity.
Qed.

Lemma well_formed_fn (d : desc) :
  well_formed_consumer (AObj d) = true -> exists f, d_fn d = Some (FFun f).
Proof.
  cbn. destruct (d_kind d) as [[]|]; try discriminate.
  destruct (d_fn d) as [[]|]; try discriminate. eauto.
Qed.

Lemma validate_well_formed (ds : list desc) :
  Forall (fun d => well_formed_consumer (AObj d) = true) ds ->
  validate_consumers (map AObj ds) = inr ds.
Proof.
  induction 1 as [|d ds Hd _ IH]; [reflexivity|].
  cbn [map validate_consumers]. rewrite (well_formed_validate d Hd), IH. reflexivity.
Qed.

(** A consumer of a recognised kind runs to completion and stores the
    result the spec describes. *)
Lemma body_fold_known (ci : nat) (d : desc) (f : list val -> val) (S : list val) (tr : list call) :
  d_fn d = Some (FFun f) -> known_kind d = true ->
  exists lv, fst (body_fold ci d (init_vars d) 0 S tr) = inr lv /\ store_result d lv = spec_result S d.
Proof.
  intros Hf Hk. unfold init_vars, store_result, spec_result. rewrite Hf.
  destruct (known_kind_cases d Hk) as [H|[H|[H|H]]]; rewrite H; decide_strings.
  - eexists; split; [exact (body_fold_map ci d f [] VUndef [] 0 S tr H Hf)|reflexivity].
  - eexists; split; [exact (body_fold_filter ci d f [] VUndef [] 0 S tr H Hf)|reflexivity].
  - eexists; split; [rewrite (body_fold_reduce ci d f [] _ [] S tr H Hf); reflexivity|reflexivity].
  - eexists; split; [exact (body_fold_forEach ci d f _ 0 S tr H Hf)|reflexivity].
Qed.

Lemma consumers_fold_known (S : list val) (ci : nat) (ds : list desc) (tr : list call) :
  Forall (fun d => known_kind d = true /\ exists f, d_fn d = Some (FFun f)) ds ->
  fst (consumers_fold S ci ds tr) = inr (map (spec_result S) ds).
Proof.
  intros Hds. revert ci tr. induction Hds as [|d ds [Hk [f Hf]] _ IH]; intros ci tr; [reflexivity|].
  destruct (body_fold_known ci d f S tr Hf Hk) as (lv & Hlv & Hs).
  cbn [consumers_fold]. destruct (body_fold ci d (init_vars d) 0 S tr) as [res tr1].
  cbn in Hlv. subst res. specialize (IH (Datatypes.S ci) tr1).
  destruct (consumers_fold S (Datatypes.S ci) ds tr1) as [res2 tr2]. cbn in IH |- *. subst res2.
  rewrite Hs. reflexivity.
Qed.

(** An unrecognised kind, met after consumers of recognised kinds, raises on
    the first element its cursor yields. *)
Lemma consumers_fold_unknown (x : val) (r : list val) (ds1 ds2 : list desc) (d : desc)
    (ci : nat) (tr : list call) :
  Forall (fun d => known_kind d = true /\ exists f, d_fn d = Some (FFun f)) ds1 ->
  known_kind d = false ->
  fst (consumers_fold (x :: r) ci (ds1 ++ d :: ds2) tr) = inl (PlainError "Unknown consumer kind").
Proof.
  intros Hds Hd. revert ci tr. induction Hds as [|d1 ds1 [Hk [f Hf]] _ IH]; intros ci tr.
  - destruct (known_kind_false d Hd) as (H1 & H2 & H3 & H4).
    cbn [app consumers_fold body_fold]. unfold consumer_body. decide_strings. reflexivity.
  - destruct (body_fold_known ci d1 f (x :: r) tr Hf Hk) as (lv & Hlv & _).
    cbn [app consumers_fold]. destruct (body_fold ci d1 (init_vars d1) 0 (x :: r) tr) as [res tr1].
    cbn in Hlv. subst res. specialize (IH (Datatypes.S ci) tr1).
    destruct (consumers_fold (x :: r) (Datatypes.S ci) (ds1 ++ d :: ds2) tr1) as [[e|out] tr2];
      cbn in IH |- *; congruence.
Qed.

(** Over an empty source no loop body runs. *)
Lemma consumers_fold_empty (ci : nat) (ds : list desc) (tr : list call) :
  consumers_fold [] ci ds tr = (inr (map (fun d => store_result d (init_vars d)) ds), tr).
Proof.
  revert ci. induction ds as [|d ds IH]; intros ci; [reflexivity|].
  cbn [consumers_fold body_fold]. rewrite IH. reflexivity.
Qed.

Lemma store_result_unknown (d : desc) (lv : loop_vars) :
  known_kind d = false -> store_result d lv = VNum 0.
Proof.
  intros Hd. destruct (known_kind_false d Hd) as (H1 & H2 & H3 & H4).
  unfold store_result. decide_strings. reflexivity.
Qed.

Lemma validate_consumer_error (c : arg) (e : exn) :
  validate_consumer c = inl e -> exists msg, e = TypeError msg.
Proof.
  destruct c as [v|d]; cbn.
  - destruct (is_object v); intros H; injection H as <-; eauto.
  - destruct (d_kind d) as [[]|]; try (intros H; injection H as <-; eauto).
    destruct (d_fn d) as [[]|]; intros H; try discriminate; injection H as <-; eauto.
Qed.

Lemma validate_consumer_ok (c : arg) (d : desc) :
  validate_consumer c = inr d -> well_formed_consumer c = true.
Proof.
  destruct c as [v|d']; cbn.
  - destruct (is_object v); discriminate.
  - destruct (d_kind d') as [[]|]; try discriminate.
    destruct (d_fn d') as [[]|]; try discriminate. reflexivity.
Qed.

Lemma validate_consumers_error (cs : list arg) :
  Exists (fun c => well_formed_consumer c = false) cs ->
  exists msg, validate_consumers cs = inl (TypeError msg).
Proof.
  induction cs as [|c cs IH]; intros Hex; [inversion Hex|]. cbn.
  destruct (validate_consumer c) as [e|d] eqn:Hc.
  - destruct (validate_consumer_error c e Hc) as [msg ->]. eauto.
  - apply Exists_cons in Hex as [Hw|Hex].
    + rewrite (validate_consumer_ok c d Hc) in Hw. discriminate.
    + destruct (IH Hex) as [msg ->]. eauto.
Qed.

(** Two descriptors the runner cannot tell apart: same [kind], same [fn],
    same initial loop variables. *)
Definition desc_equiv (d d' : desc) : Prop :=
  kind_of d = kind_of d' /\ d_fn d = d_fn d' /\ init_vars d = init_vars d'.

Definition validated_equiv (v v' : exn + list desc) : Prop :=
  match v, v' with
  | inl e, inl e' => e = e'
  | inr ds, inr ds' => Forall2 desc_equiv ds ds'
  | _, _ => False
  end.

Lemma desc_equiv_refl (ds : list desc) : Forall2 desc_equiv ds ds.
Proof. induction ds; constructor; [repeat split|assumption]. Qed.

Lemma for_of_equiv (fuel ci : nat) (d d' : desc) (lv : loop_vars) (k : nat)
    (st : splitter) (tr : list call) :
  kind_of d = kind_of d' -> d_fn d = d_fn d' ->
  for_of fuel ci d lv k st tr = for_of fuel ci d' lv k st tr.
Proof.
  intros Hk Hf. revert lv k st tr. induction fuel as [|fuel IH]; intros lv k st tr; [reflexivity|].
  cbn [for_of]. destruct (next ci st) as [[elem| |e] st1]; try reflexivity.
  assert (Hb : consumer_body ci d lv elem k tr = consumer_body ci d' lv elem k tr)
    by (unfold consumer_body, call_fn; rewrite Hk, Hf; reflexivity).
  rewrite Hb. destruct (consumer_body ci d' lv elem k tr) as [[e|lv1] tr1]; [reflexivity|apply IH].
Qed.

Lemma run_consumers_equiv (fuel ci : nat) (ds ds' : list desc) (st : splitter) (tr : list call) :
  Forall2 desc_equiv ds ds' -> run_consumers fuel ci ds st tr = run_consumers fuel ci ds' st tr.
Proof.
  intros H. revert ci st tr. induction H as [|d d' ds ds' (Hk & Hf & Hi) _ IH]; intros ci st tr;
    [reflexivity|].
  cbn [run_consumers]. rewrite Hi, (for_of_equiv fuel ci d d' _ 0 st tr Hk Hf).
  destruct (for_of fuel ci d' (init_vars d') 0 st tr) as [[[[e|lv] st1] tr1]|]; try reflexivity.
  rewrite IH. unfold store_result. rewrite Hk. reflexivity.
Qed.

Lemma teeConsumers_equiv (this : val) (cs cs' : list arg) :
  (cs = [] <-> cs' = []) ->
  validated_equiv (validate_consumers cs) (validate_consumers cs') ->
  teeConsumers this cs = teeConsumers this cs'.
Proof.
  intros Hne Hv. unfold teeConsumers. destruct this; try reflexivity.
  destruct (validate_consumers cs) as [e|ds], (validate_consumers cs') as [e'|ds'];
    cbn in Hv; try contradiction.
  - subst e'. destruct cs, cs'; try reflexivity; exfalso; naive_solver.
  - rewrite (Forall2_length _ _ _ Hv).
    destruct cs, cs'; try reflexivity; try (exfalso; naive_solver).
    destruct (createTeeIterators [VArr l; num_of_nat (length ds')]); [reflexivity|].
    rewrite (run_consumers_equiv _ 0 ds ds' _ [] Hv). reflexivity.
Qed.

Lemma validate_undefined_init (cs1 cs2 : list arg) (k : option val) (fn : option fnval) :
  validated_equiv (validate_consumers (cs1 ++ AObj (mkDesc k fn (Some VUndef)) :: cs2))
                  (validate_consumers (cs1 ++ AObj (mkDesc k fn None) :: cs2)).
Proof.
  induction cs1 as [|c cs1 IH].
  - cbn [app validate_consumers validate_consumer d_kind d_fn].
    destruct k as [[]|]; try reflexivity. destruct fn as [[]|]; try reflexivity.
    destruct (validate_consumers cs2) as [e|ds]; [reflexivity|].
    constructor; [|apply desc_equiv_refl].
    split; [reflexivity|split; [reflexivity|]].
    unfold init_vars. cbn [d_initVal default]. repeat case_match; reflexivity.
  - cbn [app validate_consumers]. destruct (validate_consumer c) as [e|d]; [reflexivity|].
    destruct (validate_consumers (cs1 ++ AObj (mkDesc k fn (Some VUndef)) :: cs2)) as [e|ds],
             (validate_consumers (cs1 ++ AObj (mkDesc k fn None) :: cs2)) as [e'|ds'];
      cbn in IH |- *; try contradiction; [exact IH|].
    constructor; [repeat split|exact IH].
Qed.

(** A [for ... of] loop that completes normally has run its cursor to the
    end of the source. *)
Lemma for_of_exhausts (S : list val) (N : nat) (fuel ci : nat) (d : desc) (lv : loop_vars)
    (k : nat) (st : splitter) (tr : list call) (lv' : loop_vars) (st' : splitter) (tr' : list call) :
  Inv S N st -> Inv_done N st -> ci < N -> done_of st ci = false ->
  for_of fuel ci d lv k st tr = Some (inr lv', st', tr') -> streamExhausted st' = true.
Proof.
  revert lv k st tr. induction fuel as [|fuel IH]; intros lv k st tr HI HD Hci Hd H; [discriminate|].
  cbn [for_of] in H. destruct (next ci st) as [r st1] eqn:Hn.
  pose proof (Inv_done_step S N st ci r st1 HI HD Hci Hn) as HD1.
  destruct (next_core S N st ci r st1 HI Hci Hn) as (HI1 & _ & _ & _ & Hlive).
  destruct (Hlive Hd) as (Hr & Hlt & Heq). clear Hlive.
  pose proof (Inv_lpos_le _ _ _ _ HI Hci) as Hle.
  destruct (decide (lpos st ci < length S)) as [Hl|Hl].
  - destruct (lookup_lt_is_Some_2 S _ Hl) as [x Hx].
    unfold expected in Hr. rewrite Hx in Hr. subst r.
    destruct (consumer_body ci d lv x k tr) as [[e|lv1] tr1]; [discriminate|].
    exact (IH lv1 (Datatypes.S k) st1 tr1 HI1 HD1 Hci (proj2 (Hlt Hl)) H).
  - unfold expected in Hr. rewrite lookup_ge_None_2 in Hr by lia. subst r.
    injection H as _ <- _. exact (proj2 (proj2 (Heq ltac:(lia)))).
Qed.


Lemma body_fold_plain_calls (ci : nat) (d : desc) (f : list val -> val) (lv : loop_vars)
    (k : nat) (xs : list val) (tr : list call) :
  kind_of d = "map" \/ kind_of d = "filter" \/ kind_of d = "forEach" -> d_fn d = Some (FFun f) ->
  snd (body_fold ci d lv k xs tr) =
  tr ++ map (fun ix : nat * val => (ci, [ix.2; num_of_nat ix.1])) (indexed k xs).
Proof.
  intros Hk Hf. revert lv k tr. induction xs as [|x xs IH]; intros lv k tr.
  - cbn. rewrite app_nil_r. reflexivity.
  - cbn [body_fold]. destruct Hk as [H|[H|H]]; body_step H Hf; rewrite IH, <- app_assoc; reflexivity.
Qed.


Lemma body_fold_known_calls (ci : nat) (d : desc) (f : list val -> val) (S : list val)
    (tr : list call) :
  d_fn d = Some (FFun f) -> known_kind d = true ->
  snd (body_fold ci d (init_vars d) 0 S tr) = tr ++ consumer_calls S ci d.
Proof.
  intros Hf Hk. unfold consumer_calls. rewrite Hf.
  destruct (known_kind_cases d Hk) as [H|[H|[H|H]]].
  - rewrite H. decide_strings. apply (body_fold_plain_calls _ _ f); auto.
  - rewrite H. decide_strings. apply (body_fold_plain_calls _ _ f); auto.
  - assert (Hi : init_vars d = mkVars [] (default VUndef (d_initVal d)) [])
      by (unfold init_vars; rewrite H; decide_strings; reflexivity).
    rewrite Hi, (body_fold_reduce ci d f [] _ [] S tr H Hf), H. decide_strings. reflexivity.
  - rewrite H. decide_strings. apply (body_fold_plain_calls _ _ f); auto.
Qed.


(** [teeConsumers] on an array with validated consumers runs the consumer
    loop from the freshly built splitter. *)
Lemma teeConsumers_run (S : list val) (cs : list arg) (ds : list desc) :
  cs <> [] -> validate_consumers cs = inr ds -> (Z.of_nat (length cs) < 2 ^ 32)%Z ->
  teeConsumers (VArr S) cs =
    match run_consumers (Datatypes.S (length S)) 0 ds (init_splitter S None (length ds)) [] with
    | None => None
    | Some (r, st', tr) => Some (r, pulls st', tr)
    end.
Proof.
  intros Hne Hv Hlen. pose proof (validate_consumers_length cs ds Hv) as Hl.
  assert (Hc : createTeeIterators [VArr S; num_of_nat (length ds)] =
               inr (init_splitter S None (length ds))).
  { unfold createTeeIterators, num_of_nat. cbn [iterator_of]. rewrite Qfloor_Z.
    unfold valid_array_length. rewrite Hl.
    replace ((0 <=? Z.of_nat (length cs))%Z && (Z.of_nat (length cs) <? 2 ^ 32)%Z) with true
      by (symmetry; apply andb_true_intro; split; [apply Z.leb_le|apply Z.ltb_lt]; lia).
    rewrite Nat2Z.id, <- Hl. reflexivity. }
  unfold teeConsumers. destruct cs as [|c cs']; [congruence|]. rewrite Hv, Hc. reflexivity.
Qed.

(** Consumers of recognised kinds, run one after the other on fresh
    cursors, each drain the source; whatever error the consumers after them
    raise is the outcome of the whole loop. *)
Lemma run_consumers_prefix (S : list val) (N : nat) (ds1 : list desc) (ci : nat)
    (st : splitter) (tr : list call) :
  Inv S N st -> Inv_done N st -> ci + length ds1 <= N ->
  (forall j, ci <= j -> j < N -> lpos st j = 0 /\ done_of st j = false) ->
  Forall (fun d => known_kind d = true /\ exists f, d_fn d = Some (FFun f)) ds1 ->
  exists st1,
    Inv S N st1 /\ Inv_done N st1 /\
    (forall j, ci + length ds1 <= j -> j < N -> lpos st1 j = 0 /\ done_of st1 j = false) /\
    (ds1 = [] -> st1 = st) /\
    (ds1 <> [] \/ streamExhausted st = true -> streamExhausted st1 = true) /\
    (forall rest e st2 tr2,
       run_consumers (Datatypes.S (length S)) (ci + length ds1) rest st1 (tr ++ all_calls S ci ds1) =
         Some (inl e, st2, tr2) ->
       run_consumers (Datatypes.S (length S)) ci (ds1 ++ rest) st tr = Some (inl e, st2, tr2)).
Proof.
  revert ci st tr. induction ds1 as [|d ds1 IH]; intros ci st tr HI HD HN Hfresh Hds.
  - exists st. split; [exact HI|]. split; [exact HD|]. split; [intros j Hj; apply Hfresh; cbn in Hj; lia|].
    split; [reflexivity|]. split; [intros [H|H]; [congruence|exact H]|].
    intros rest e st2 tr2 H. cbn [length all_calls] in H. rewrite Nat.add_0_r, app_nil_r in H. exact H.
  - inversion Hds as [|? ? Hd1 Hds']; subst. destruct Hd1 as [Hk [f Hf]].
    cbn [length] in HN. destruct (Hfresh ci ltac:(lia) ltac:(lia)) as (Hl0 & Hd0).
    destruct (for_of_spec S N (Datatypes.S (length S)) ci d (init_vars d) 0 st tr
                HI HD ltac:(lia) Hd0 Hl0 ltac:(lia)) as (st1 & Hfor & Hprop).
    rewrite drop_0 in Hfor, Hprop.
    destruct (body_fold_known ci d f S tr Hf Hk) as (lv & Hlv & _).
    pose proof (body_fold_known_calls ci d f S tr Hf Hk) as Hc.
    destruct (body_fold ci d (init_vars d) 0 S tr) as [res tr1].
    cbn [fst snd] in Hlv, Hc, Hfor, Hprop. subst res tr1.
    destruct (Hprop ltac:(eexists; reflexivity)) as (HI1 & HD1 & Hj1).
    pose proof (for_of_exhausts S N _ ci d _ 0 st tr lv st1 _ HI HD ltac:(lia) Hd0 Hfor) as Hx1.
    destruct (IH (Datatypes.S ci) st1 (tr ++ consumer_calls S ci d) HI1 HD1 ltac:(lia))
      as (st2 & HI2 & HD2 & Hfr2 & _ & Hx2 & Hrun).
    { intros j Hj HjN. destruct (Hj1 j HjN ltac:(lia)) as (-> & ->). apply Hfresh; lia. }
    { exact Hds'. }
    exists st2. split; [exact HI2|]. split; [exact HD2|]. split.
    { intros j Hj HjN. apply Hfr2; cbn [length] in Hj; lia. }
    split; [discriminate|]. split; [intros _; apply Hx2; right; exact Hx1|].
    intros rest e st3 tr3 H. cbn [app run_consumers]. rewrite Hfor.
    replace (ci + length (d :: ds1)) with (Datatypes.S ci + length ds1) in H by (cbn; lia).
    cbn [all_calls] in H. rewrite app_assoc in H. rewrite (Hrun rest e st3 tr3 H). reflexivity.
Qed.

(** A consumer of unrecognised kind raises on the first element its fresh
    cursor yields, before any call of [fn], and its iterator is closed. *)
Lemma for_of_unknown_first (S : list val) (N fuel ci : nat) (d : desc) (lv : loop_vars)
    (st : splitter) (tr : list call) (x : val) (r : list val) :
  Inv S N st -> ci < N -> done_of st ci = false -> lpos st ci = 0 -> S = x :: r ->
  known_kind d = false ->
  for_of (Datatypes.S fuel) ci d lv 0 st tr =
    Some (inl (PlainError "Unknown consumer kind"), snd (cursor_return ci VUndef (snd (next ci st))), tr).
Proof.
  intros HI Hci Hd Hl HS Hk. cbn [for_of]. destruct (next ci st) as [res st1] eqn:Hn.
  destruct (next_core S N st ci res st1 HI Hci Hn) as (_ & _ & _ & _ & Hlive).
  destruct (Hlive Hd) as (Hr & _ & _). rewrite Hl in Hr. unfold expected in Hr.
  subst S. cbn in Hr. subst res.
  destruct (known_kind_false d Hk) as (H1 & H2 & H3 & H4).
  unfold consumer_body. decide_strings. reflexivity.
Qed.

Lemma cursor_return_pulls (i : nat) (v : val) (st : splitter) :
  pulls (snd (cursor_return i v st)) = pulls st.
Proof. unfold cursor_return. destruct (done_of st i); reflexivity. Qed.

(* ------------------------------------------------------------------ *)
(** ** Claims about [teeConsumers] *)

(** C5 counterexample: with no consumers the error is a plain [Error], not a
    TypeError; an unknown [kind] is not rejected up front: the [map]
    consumer before it has already pulled the source and called its [fn]
    when the plain [Error] is raised; and over an empty array an unknown kind
    raises nothing and leaves [0] in its result slot. *)
Lemma tee_validation_counterexample :
  teeConsumers (VArr [qnum 1]) [] =
    Some (inl (PlainError "At least one consumer must be provided"), 0, []) /\
  teeConsumers (VArr [qnum 1])
    [AObj (mkDesc (Some (VStr "map")) (Some (FFun ex_double)) None);
     AObj (mkDesc (Some (VStr "scan")) (Some (FFun ex_noop)) None)] =
    Some (inl (PlainError "Unknown consumer kind"), 2, [(0, [qnum 1; num_of_nat 0])]) /\
  teeConsumers (VArr [])
    [AObj (mkDesc (Some (VStr "scan")) (Some (FFun ex_noop)) None)] =
    Some (inr [VNum 0], 1, []).
Proof. split; [|split]; vm_compute; reflexivity. Qed.

(** C5 (amended): on an array, [teeConsumers] with no consumers raises a
    plain [Error]; if some consumer is not an object with a string [kind] and
    a function [fn], it raises a TypeError; in both cases before any pull
    (0 pulls) and before any [fn] call (empty trace). A [kind] outside
    map/filter/reduce/forEach is not checked up front: over a non-empty
    array, the consumers before it (of recognised kinds) run first over the
    whole source, making all their [fn] calls, and it then raises a plain
    [Error] on the first element its own cursor yields, before any [fn] call
    of its own or of a later consumer. The source is then pulled [|S| + 1]
    times when consumers ran before it, and once (for that first element)
    when it is the first consumer. *)
Theorem tee_validation (S : list val) (cs : list arg) (ds1 ds2 : list desc) (d : desc)
    (x : val) (r : list val) :
  teeConsumers (VArr S) [] =
    Some (inl (PlainError "At least one consumer must be provided"), 0, []) /\
  (Exists (fun c => well_formed_consumer c = false) cs ->
   exists msg, teeConsumers (VArr S) cs = Some (inl (TypeError msg), 0, [])) /\
  (Forall (fun d => well_formed_consumer (AObj d) = true) (ds1 ++ d :: ds2) ->
   Forall (fun d => known_kind d = true) ds1 -> known_kind d = false ->
   (Z.of_nat (length (ds1 ++ d :: ds2)) < 2 ^ 32)%Z ->
   teeConsumers (VArr (x :: r)) (map AObj (ds1 ++ d :: ds2)) =
     Some (inl (PlainError "Unknown consumer kind"),
           match ds1 with [] => 1 | _ => Datatypes.S (length (x :: r)) end,
           all_calls (x :: r) 0 ds1)).
Proof.
  split; [reflexivity|]. split.
  - intros Hex. destruct (validate_consumers_error cs Hex) as [msg Hv]. exists msg.
    unfold teeConsumers. destruct cs; [inversion Hex|]. rewrite Hv. reflexivity.
  - intros Hwf Hk1 Hd Hlen.
    assert (Hv : validate_consumers (map AObj (ds1 ++ d :: ds2)) = inr (ds1 ++ d :: ds2))
      by (apply validate_well_formed; exact Hwf).
    assert (Hne : map AObj (ds1 ++ d :: ds2) <> []) by (destruct ds1; discriminate).
    assert (Hlen' : (Z.of_nat (length (map AObj (ds1 ++ d :: ds2))) < 2 ^ 32)%Z)
      by (rewrite length_map; exact Hlen).
    rewrite (teeConsumers_run (x :: r) _ _ Hne Hv Hlen').
    assert (Hk : Forall (fun d => known_kind d = true /\ exists f, d_fn d = Some (FFun f)) ds1).
    { apply Forall_app in Hwf as (Hwf1 & _).
      apply Forall_forall. intros d1 Hd1. split.
      - rewrite Forall_forall in Hk1. auto.
      - rewrite Forall_forall in Hwf1. apply well_formed_fn. auto. }
    assert (HN : length ds1 < length (ds1 ++ d :: ds2)) by (rewrite length_app; cbn; lia).
    destruct (run_consumers_prefix (x :: r) (length (ds1 ++ d :: ds2)) ds1 0
                (init_splitter (x :: r) None (length (ds1 ++ d :: ds2))) []
                (Inv_init (x :: r) (length (ds1 ++ d :: ds2)) ltac:(lia))
                (Inv_done_init (length (ds1 ++ d :: ds2)) (x :: r)) ltac:(cbn; lia)) as
      (st1 & HI1 & _ & Hfr1 & Heq1 & Hx1 & Hrun); [| exact Hk |].
    { intros j _ Hj. unfold lpos, offset, elems_pulled, pos_of, done_of, init_splitter; cbn.
      rewrite !lookup_total_replicate_2 by lia. auto. }
    destruct (Hfr1 (length ds1) ltac:(lia) HN) as (Hl & Hdn).
    pose proof (for_of_unknown_first (x :: r) _ (length (x :: r)) (length ds1) d (init_vars d) st1
                  ([] ++ all_calls (x :: r) 0 ds1) x r HI1 HN Hdn Hl eq_refl Hd) as Hf.
    assert (Hstep : run_consumers (Datatypes.S (length (x :: r))) (0 + length ds1) (d :: ds2) st1
                      ([] ++ all_calls (x :: r) 0 ds1) =
                    Some (inl (PlainError "Unknown consumer kind"),
                          snd (cursor_return (length ds1) VUndef (snd (next (length ds1) st1))),
                          [] ++ all_calls (x :: r) 0 ds1))
      by (cbn [run_consumers Nat.add]; rewrite Hf; reflexivity).
    rewrite (Hrun _ _ _ _ Hstep), cursor_return_pulls. cbn [app].
    destruct ds1 as [|d1 ds1'].
    + rewrite (Heq1 eq_refl). vm_compute. reflexivity.
    + destruct (next (length (d1 :: ds1')) st1) as [res st1'] eqn:Hn.
      destruct (next_core _ _ _ _ _ _ HI1 HN Hn) as (_ & Hex & _).
      pose proof (inv_pulls _ _ _ HI1) as Hp. rewrite (Hx1 ltac:(left; discriminate)) in Hp.
      cbn [snd]. rewrite (proj2 (Hex (Hx1 ltac:(left; discriminate)))), Hp. reflexivity.
Qed.

Lemma tee_validation_witness :
  Exists (fun c => well_formed_consumer c = false) [APrim VNull] /\
  (exists msg, teeConsumers (VArr [qnum 1]) [APrim VNull] = Some (inl (TypeError msg), 0, [])) /\
  Forall (fun d => well_formed_consumer (AObj d) = true)
    ([mkDesc (Some (VStr "map")) (Some (FFun ex_double)) None] ++
     mkDesc (Some (VStr "scan")) (Some (FFun ex_noop)) None :: []) /\
  Forall (fun d => known_kind d = true) [mkDesc (Some (VStr "map")) (Some (FFun ex_double)) None] /\
  known_kind (mkDesc (Some (VStr "scan")) (Some (FFun ex_noop)) None) = false /\
  teeConsumers (VArr [qnum 1; qnum 2])
    (map AObj ([mkDesc (Some (VStr "map")) (Some (FFun ex_double)) None] ++
               mkDesc (Some (VStr "scan")) (Some (FFun ex_noop)) None :: [])) =
    Some (inl (PlainError "Unknown consumer kind"), 3,
          [(0, [qnum 1; num_of_nat 0]); (0, [qnum 2; num_of_nat 1])]).
Proof.
  assert (Hex : Exists (fun c => well_formed_consumer c = false) [APrim VNull])
    by (left; reflexivity).
  assert (Hwf : Forall (fun d => well_formed_consumer (AObj d) = true)
                  ([mkDesc (Some (VStr "map")) (Some (FFun ex_double)) None] ++
                   mkDesc (Some (VStr "scan")) (Some (FFun ex_noop)) None :: []))
    by (repeat constructor).
  assert (Hk1 : Forall (fun d => known_kind d = true)
                  [mkDesc (Some (VStr "map")) (Some (FFun ex_double)) None])
    by (repeat constructor; vm_compute; reflexivity).
  assert (Hd : known_kind (mkDesc (Some (VStr "scan")) (Some (FFun ex_noop)) None) = false)
    by (vm_compute; reflexivity).
  destruct (tee_validation [qnum 1] [APrim VNull]
              [mkDesc (Some (VStr "map")) (Some (FFun ex_double)) None] []
              (mkDesc (Some (VStr "scan")) (Some (FFun ex_noop)) None) (qnum 1) [qnum 2])
    as (_ & H2 & H3).
  split; [exact Hex|]. split; [exact (H2 Hex)|]. split; [exact Hwf|]. split; [exact Hk1|].
  split; [exact Hd|]. rewrite (H3 Hwf Hk1 Hd ltac:(cbn; lia)). vm_compute. reflexivity.
Defined.

(** C6 counterexample: an [initVal] that is present but [undefined] is not
    used as the seed: reducing [[5]] with [fn = () => 0] and
    [initVal: undefined] returns [5] and never calls [fn], where seeding with
    the supplied value and calling [fn] from index 0 would give [0]. *)
Lemma reduce_undefined_init_counterexample :
  teeConsumers (VArr [qnum 5])
    [AObj (mkDesc (Some (VStr "reduce")) (Some (FFun (fun _ => qnum 0))) (Some VUndef))] =
  Some (inr [qnum 5], 2, []).
Proof. vm_compute. reflexivity. Qed.

(** C6 (amended): a [reduce] consumer without [initVal] over a non-empty
    array [x :: r] is seeded with [x], makes no call at index 0, then calls
    [fn(accumulator, element, index)] for every index from 1 on (the calls
    are exactly those of [reduce_from f x 1 r]); with an [initVal] [a] that is
    not [undefined] it is seeded with [a] and [fn] is called from index 0; an
    [initVal] equal to [undefined] acts as an absent one. Reducing
    [[2,3,4]] by multiplication without [initVal] gives [24]. *)
Theorem reduce_seeding (f : list val -> val) (x : val) (r S : list val) (a : val) :
  is_undefined a = false ->
  (exists p, teeConsumers (VArr (x :: r)) [AObj (mkDesc (Some (VStr "reduce")) (Some (FFun f)) None)] =
     Some (inr [fst (reduce_from f x 1 r)], p, map (pair 0) (snd (reduce_from f x 1 r)))) /\
  (exists p, teeConsumers (VArr S) [AObj (mkDesc (Some (VStr "reduce")) (Some (FFun f)) (Some a))] =
     Some (inr [fst (reduce_from f a 0 S)], p, map (pair 0) (snd (reduce_from f a 0 S)))) /\
  (exists p, teeConsumers (VArr (x :: r))
               [AObj (mkDesc (Some (VStr "reduce")) (Some (FFun f)) (Some VUndef))] =
     Some (inr [fst (reduce_from f x 1 r)], p, map (pair 0) (snd (reduce_from f x 1 r)))) /\
  option_map (fun '(res, _, _) => res)
    (teeConsumers (VArr [qnum 2; qnum 3; qnum 4])
       [AObj (mkDesc (Some (VStr "reduce")) (Some (FFun ex_times)) None)]) = Some (inr [qnum 24]).
Proof.
  intros Ha. split; [|split; [|split]].
  - exact (tee_reduce_single (x :: r) f None).
  - destruct (tee_reduce_single S f (Some a)) as [p H]. exists p. rewrite H.
    change (default VUndef (Some a)) with a. unfold reduce_run. rewrite Ha. reflexivity.
  - exact (tee_reduce_single (x :: r) f (Some VUndef)).
  - vm_compute. reflexivity.
Qed.

Lemma reduce_seeding_witness :
  is_undefined (qnum 1) = false /\
  exists p, teeConsumers (VArr [qnum 2; qnum 3; qnum 4])
              [AObj (mkDesc (Some (VStr "reduce")) (Some (FFun ex_times)) (Some (qnum 1)))] =
            Some (inr [qnum 24], p,
                  [(0, [qnum 1; qnum 2; num_of_nat 0]); (0, [qnum 2; qnum 3; num_of_nat 1]);
                   (0, [qnum 6; qnum 4; num_of_nat 2])]).
Proof.
  split; [reflexivity|].
  destruct (reduce_seeding ex_times (qnum 2) [qnum 3; qnum 4] [qnum 2; qnum 3; qnum 4] (qnum 1)
              eq_refl) as (_ & [p H] & _).
  exists p. rewrite H. vm_compute. reflexivity.
Defined.

(** C7: [teeConsumers] on an array with well-formed consumers of the four
    recognised kinds returns one result per consumer, in order: for [map]
    the list of [fn(element, index)], for [filter] the elements whose
    predicate is truthy, for [reduce] the final accumulator, for [forEach]
    [undefined] ([spec_result]). *)
Theorem tee_consumers_results (S : list val) (ds : list desc) :
  ds <> [] ->
  Forall (fun d => well_formed_consumer (AObj d) = true /\ known_kind d = true) ds ->
  (Z.of_nat (length ds) < 2 ^ 32)%Z ->
  exists p tr, teeConsumers (VArr S) (map AObj ds) = Some (inr (map (spec_result S) ds), p, tr).
Proof.
  intros Hne Hds Hlen.
  assert (Hv : validate_consumers (map AObj ds) = inr ds).
  { apply validate_well_formed. eapply Forall_impl; [exact Hds|]. intros d [H _]. exact H. }
  destruct (teeConsumers_spec S (map AObj ds) ds ltac:(destruct ds; [congruence|discriminate]) Hv
              ltac:(rewrite length_map; exact Hlen)) as (p & H).
  exists p, (snd (consumers_fold S 0 ds [])). rewrite H, consumers_fold_known; [reflexivity|].
  eapply Forall_impl; [exact Hds|]. intros d [H1 H2]. split; [exact H2|]. apply well_formed_fn, H1.
Qed.

(** The README example: [[1,2,3,4]] with map(x*2), filter(even),
    reduce(+, 0), forEach(noop) gives [[[2,4,6,8], [2,4], 10, undefined]]. *)
Lemma tee_consumers_results_witness :
  ex_consumers <> [] /\
  Forall (fun d => well_formed_consumer (AObj d) = true /\ known_kind d = true) ex_consumers /\
  (Z.of_nat (length ex_consumers) < 2 ^ 32)%Z /\
  exists p tr, teeConsumers (VArr [qnum 1; qnum 2; qnum 3; qnum 4]) (map AObj ex_consumers) =
    Some (inr [VArr [qnum 2; qnum 4; qnum 6; qnum 8]; VArr [qnum 2; qnum 4]; qnum 10; VUndef], p, tr).
Proof.
  assert (Hds : Forall (fun d => well_formed_consumer (AObj d) = true /\ known_kind d = true)
                  ex_consumers)
    by (repeat constructor; vm_compute; reflexivity).
  split; [discriminate|]. split; [exact Hds|]. split; [cbn; lia|].
  destruct (tee_consumers_results [qnum 1; qnum 2; qnum 3; qnum 4] ex_consumers
              ltac:(discriminate) Hds ltac:(cbn; lia)) as (p & tr & H).
  exists p, tr. rewrite H. vm_compute. reflexivity.
Defined.

(** C10: an [initVal] present but [undefined] behaves exactly like an
    absent one: [teeConsumers] gives the same outcome (result, pulls and
    [fn] calls) when one consumer's [initVal: undefined] is removed, whatever
    the receiver and the other consumers; for [reduce] over a non-empty array
    the first element seeds the accumulator and [fn] is not called at index 0. *)
Theorem reduce_undefined_init_as_absent (this : val) (cs1 cs2 : list arg) (k : option val)
    (fn : option fnval) (f : list val -> val) (x : val) (r : list val) :
  teeConsumers this (cs1 ++ AObj (mkDesc k fn (Some VUndef)) :: cs2) =
  teeConsumers this (cs1 ++ AObj (mkDesc k fn None) :: cs2) /\
  exists p, teeConsumers (VArr (x :: r))
              [AObj (mkDesc (Some (VStr "reduce")) (Some (FFun f)) (Some VUndef))] =
            Some (inr [fst (reduce_from f x 1 r)], p, map (pair 0) (snd (reduce_from f x 1 r))).
Proof.
  split.
  - apply teeConsumers_equiv; [|apply validate_undefined_init].
    split; intros H; exfalso; destruct cs1; discriminate.
  - exact (tee_reduce_single (x :: r) f (Some VUndef)).
Qed.

(* ------------------------------------------------------------------ *)
(** ** Argument checks of [createTeeIterators] *)

(** C9 counterexample: [Array.tee([], -0.5)] raises a RangeError
    ([Math.floor(-0.5) = -1] is not a valid array length), while truncation
    toward zero would give the valid count [0]. *)
Lemma split_fractional_count_counterexample :
  trunc_toward_zero (-1 # 2) = 0%Z /\ valid_array_length 0 = true /\
  createTeeIterators [VArr []; VNum (-1 # 2)] = inl RangeError.
Proof. vm_compute. split; [reflexivity|split; reflexivity]. Qed.

(** C9 (amended): [createTeeIterators] raises, and builds no splitter (so
    nothing is pulled), when it does not get exactly two arguments, when the
    source has no iterator (a TypeError for [undefined] and [null], a plain
    [Error] otherwise) or when [count] is not a number. The count is rounded
    by [Math.floor]: for a non-negative count this is truncation toward zero
    and the splitter has that many fresh cursors with nothing pulled, while a
    negative count raises a RangeError. *)
Theorem split_argument_checks (args : list val) (src count : val) (q : Q)
    (items : list val) (err : option val) :
  (length args <> 2 -> createTeeIterators args = inl (PlainError "Expected 2 arguments")) /\
  (iterator_of src = IterTypeError -> exists msg, createTeeIterators [src; count] = inl (TypeError msg)) /\
  (iterator_of src = IterNone ->
   createTeeIterators [src; count] = inl (PlainError "Expected Arg 1 to be an iterator.")) /\
  (iterator_of src = IterSome items err -> (forall q', count <> VNum q') ->
   createTeeIterators [src; count] = inl (PlainError "Expected Arg 2 to be an integer")) /\
  (iterator_of src = IterSome items err -> (0 <= q)%Q -> valid_array_length (Qfloor q) = true ->
   Qfloor q = trunc_toward_zero q /\
   createTeeIterators [src; VNum q] = inr (init_splitter items err (Z.to_nat (trunc_toward_zero q))) /\
   pulls (init_splitter items err (Z.to_nat (trunc_toward_zero q))) = 0) /\
  (iterator_of src = IterSome items err -> (q < 0)%Q -> createTeeIterators [src; VNum q] = inl RangeError).
Proof.
  split; [|split; [|split; [|split; [|split]]]].
  - intros H. destruct args as [|a [|b [|c args]]]; cbn in H |- *; try reflexivity; lia.
  - intros H. unfold createTeeIterators. rewrite H. eauto.
  - intros H. unfold createTeeIterators. rewrite H. reflexivity.
  - intros H Hc. unfold createTeeIterators. rewrite H.
    destruct count; try reflexivity. exfalso. eapply Hc. reflexivity.
  - intros H Hq Hv.
    assert (Ht : Qfloor q = trunc_toward_zero q).
    { destruct q as [n d]. unfold Qle in Hq. cbn in Hq |- *.
      unfold trunc_toward_zero. cbn. rewrite Z.quot_div_nonneg by lia. reflexivity. }
    split; [exact Ht|]. split; [|reflexivity].
    unfold createTeeIterators. rewrite H, Hv, Ht. reflexivity.
  - intros H Hq. unfold createTeeIterators. rewrite H.
    assert (Hf : (Qfloor q < 0)%Z).
    { destruct q as [n d]. unfold Qlt in Hq. cbn in Hq |- *.
      apply Z.div_lt_upper_bound; lia. }
    unfold valid_array_length. replace (0 <=? Qfloor q)%Z with false
      by (symmetry; apply Z.leb_gt; exact Hf).
    reflexivity.
Qed.

Lemma split_argument_checks_witness :
  iterator_of (VArr [qnum 1]) = IterSome [qnum 1] None /\ (0 <= 5 # 2)%Q /\
  valid_array_length (Qfloor (5 # 2)) = true /\
  trunc_toward_zero (5 # 2) = 2%Z /\
  createTeeIterators [VArr [qnum 1]; VNum (5 # 2)] = inr (init_splitter [qnum 1] None 2).
Proof.
  assert (Hv : valid_array_length (Qfloor (5 # 2)) = true) by reflexivity.
  destruct (split_argument_checks [] (VArr [qnum 1]) VUndef (5 # 2) [qnum 1] None)
    as (_ & _ & _ & _ & H5 & _).
  destruct (H5 eq_refl ltac:(unfold Qle; cbn; lia) Hv) as (_ & Hc & _).
  split; [reflexivity|]. split; [unfold Qle; cbn; lia|]. split; [exact Hv|].
  split; [reflexivity|]. exact Hc.
Defined.

(* ------------------------------------------------------------------ *)
(** ** Further properties of the splitter *)

(** [cleanupStreamBuffer] never changes what a cursor has still to read
    from the buffer, and afterwards the slowest cursor is at position 0. *)
Lemma cleanup_keeps_pending (st : splitter) (i : nat) :
  i < length (iteratorIndexPositions st) ->
  drop (pos_of (cleanupStreamBuffer st) i) (streamBuffer (cleanupStreamBuffer st)) =
  drop (pos_of st i) (streamBuffer st) /\
  exists j, j < length (iteratorIndexPositions st) /\ pos_of (cleanupStreamBuffer st) j = 0.
Proof.
  intros Hi. set (P := iteratorIndexPositions st). set (m := list_min P).
  assert (Hpos : forall j, j < length P -> pos_of (cleanupStreamBuffer st) j = pos_of st j - m).
  { intros j Hj. unfold cleanupStreamBuffer, pos_of, set_positions. cbn [iteratorIndexPositions].
    rewrite (list_lookup_total_fmap (A:=nat) (B:=nat) (fun p => p - m)); [reflexivity|exact Hj]. }
  split.
  - rewrite Hpos by exact Hi. unfold cleanupStreamBuffer, set_positions, set_buffer.
    cbn [streamBuffer]. rewrite drop_drop. f_equal.
    assert (m <= pos_of st i); [|unfold m, P in *; lia].
    apply list_min_le. unfold pos_of. apply list_elem_of_lookup_total_2. exact Hi.
  - destruct (list_elem_of_lookup_total_1 P m) as (j & Hj & Heq).
    + apply list_min_elem. intros Hnil. unfold P in Hnil. rewrite Hnil in Hi. cbn in Hi. lia.
    + exists j. split; [exact Hj|]. rewrite Hpos by exact Hj. unfold pos_of. fold P. lia.
Qed.

Lemma cleanup_keeps_pending_witness :
  0 < length [1; 2] /\
  drop (pos_of (cleanupStreamBuffer (mkSplitter [] None 0 false None [qnum 1; qnum 2] [1; 2] [false; false])) 0)
       (streamBuffer (cleanupStreamBuffer (mkSplitter [] None 0 false None [qnum 1; qnum 2] [1; 2] [false; false]))) =
  [qnum 2].
Proof.
  split; [cbn; lia|].
  destruct (cleanup_keeps_pending (mkSplitter [] None 0 false None [qnum 1; qnum 2] [1; 2] [false; false]) 0
              ltac:(cbn; lia)) as (H & _).
  rewrite H. reflexivity.
Defined.

(** A [next()] call pulls the source at most once, and not at all when the
    cursor is done, when it still has a buffered element, when the source
    has already ended, or when a truthy error has been captured. *)
Lemma next_pulls_at_most_once (st : splitter) (i : nat) :
  pulls (snd (next i st)) <= Datatypes.S (pulls st) /\
  (done_of st i = true \/ pos_of st i < length (streamBuffer st) \/ streamExhausted st = true \/
   (exists e, streamError st = Some e /\ truthy e = true) ->
   pulls (snd (next i st)) = pulls st).
Proof.
  unfold next. destruct (done_of st i) eqn:Hd; [cbn; split; [lia|auto]|].
  destruct (streamBuffer st !! pos_of st i) as [v|] eqn:Hb; [cbn; split; [lia|auto]|].
  assert (Hge : ~ pos_of st i < length (streamBuffer st)).
  { intros Hlt. apply lookup_lt_is_Some_2 in Hlt. rewrite Hb in Hlt. destruct Hlt; discriminate. }
  unfold getNextStreamElement. destruct (streamExhausted st) eqn:Hx; [cbn; split; [lia|auto]|].
  destruct (streamError st) as [e|] eqn:He; [destruct (truthy e) eqn:Ht; [cbn; split; [lia|auto]|]|].
  all: unfold pull_source; destruct (source_pull (src_items st) (src_err st) (pulls st)); cbn.
  all: split; try lia.
  all: intros [H|[H|[H|(e' & H1 & H2)]]]; try discriminate; try contradiction; try congruence.
Qed.

(** The end of the source is recorded only by a [next()] call that marks
    its own cursor done. *)
Lemma next_exhaust_sets_done (st : splitter) (i : nat) :
  i < length (dones st) -> streamExhausted st = false ->
  streamExhausted (snd (next i st)) = true -> done_of (snd (next i st)) i = true.
Proof.
  intros Hi Hx. unfold next. destruct (done_of st i) eqn:Hd; [cbn; congruence|].
  destruct (streamBuffer st !! pos_of st i) as [v|]; [cbn; congruence|].
  unfold getNextStreamElement. rewrite Hx.
  destruct (streamError st) as [e|]; [destruct (truthy e); [cbn; congruence|]|].
  all: unfold pull_source; destruct (source_pull (src_items st) (src_err st) (pulls st)); cbn;
    try congruence.
  all: intros _; rewrite done_of_insert by exact Hi; rewrite bool_decide_true; reflexivity.
Qed.

(** One [next()] call on a splitter over a finite source: the read count of
    its cursor goes up by one, capped at [length S]; the source is recorded
    as ended exactly when it already was or the cursor was at the end. *)
Lemma next_lpos_step (S : list val) (N : nat) (st : splitter) (op : nat) (r : result) (st1 : splitter) :
  Inv S N st -> Inv_done N st -> op < N -> next op st = (r, st1) ->
  (forall i, i < N -> lpos st1 i = Nat.min (lpos st i + (if bool_decide (op = i) then 1 else 0)) (length S)) /\
  (streamExhausted st1 = true <-> streamExhausted st = true \/ length S < lpos st op + 1).
Proof.
  intros HI HD Hop Hn.
  destruct (next_core S N st op r st1 HI Hop Hn) as (_ & Hex & Hj & Hdone & Hlive).
  pose proof (Inv_lpos_le _ _ _ _ HI Hop) as Hle.
  destruct (done_of st op) eqn:Hd.
  - destruct (Hdone eq_refl) as (_ & ->). destruct (HD op Hop Hd) as (Hx & Hl).
    destruct (Inv_elems _ _ _ HI) as (_ & He & _). rewrite He in Hl by exact Hx.
    split.
    + intros i Hi. pose proof (Inv_lpos_le _ _ _ _ HI Hi).
      case_bool_decide; [subst; lia|lia].
    + rewrite Hx. tauto.
  - destruct (Hlive eq_refl) as (_ & Hlt & Heq).
    destruct (decide (lpos st op < length S)) as [Hl|Hl].
    + destruct (Hlt Hl) as (Hl1 & Hd1). split.
      * intros i Hi. case_bool_decide as Hoi; [subst; lia|].
        rewrite (proj1 (Hj i Hi (not_eq_sym Hoi))). rewrite Nat.add_0_r, Nat.min_l by (apply (Inv_lpos_le _ _ _ _ HI Hi)).
        reflexivity.
      * destruct (streamExhausted st) eqn:Hx0.
        -- split; [intros _; left; reflexivity|]. intros _. apply (Hex eq_refl).
        -- split; [|intros [H|H]; [discriminate|lia]].
           intros Hx1. exfalso.
           assert (Hlen : op < length (dones st)) by (rewrite (inv_ndone _ _ _ HI); exact Hop).
           pose proof (next_exhaust_sets_done st op Hlen Hx0) as Hs. rewrite Hn in Hs.
           cbn in Hs. rewrite (Hs Hx1) in Hd1. discriminate.
    + destruct (Heq ltac:(lia)) as (Hl1 & _ & Hx1). split.
      * intros i Hi. case_bool_decide as Hoi; [subst; lia|].
        rewrite (proj1 (Hj i Hi (not_eq_sym Hoi))). rewrite Nat.add_0_r, Nat.min_l by (apply (Inv_lpos_le _ _ _ _ HI Hi)).
        reflexivity.
      * split; [intros _; right; lia|intros _; exact Hx1].
Qed.

(** A run of [next()] calls from a reachable state. *)
Lemma run_lpos_exhausted (S : list val) (N : nat) (ops : list nat) (st : splitter) :
  Inv S N st -> Inv_done N st -> Forall (fun j => j < N) ops ->
  (forall i, i < N -> lpos (snd (run ops st)) i = Nat.min (lpos st i + calls_to i ops) (length S)) /\
  (streamExhausted (snd (run ops st)) = true <->
   streamExhausted st = true \/ exists j, j < N /\ length S < lpos st j + calls_to j ops).
Proof.
  revert st. induction ops as [|op ops IH]; intros st HI HD Hops.
  - cbn. split.
    + intros i Hi. pose proof (Inv_lpos_le _ _ _ _ HI Hi). lia.
    + split; [tauto|]. intros [H|(j & Hj & Hl)]; [exact H|].
      pose proof (Inv_lpos_le _ _ _ _ HI Hj). lia.
  - inversion Hops as [|? ? Hop Hops']; subst.
    cbn [run]. destruct (next op st) as [r st1] eqn:Hn.
    destruct (run ops st1) as [tr st2] eqn:Hr. cbn [snd].
    pose proof (Inv_done_step S N st op r st1 HI HD Hop Hn) as HD1.
    pose proof (proj1 (next_core S N st op r st1 HI Hop Hn)) as HI1.
    destruct (next_lpos_step S N st op r st1 HI HD Hop Hn) as (Hl1 & Hx1).
    destruct (IH st1 HI1 HD1 Hops') as (Hl2 & Hx2). rewrite Hr in Hl2, Hx2. cbn [snd] in Hl2, Hx2.
    cbn [calls_to]. split.
    + intros i Hi. rewrite Hl2, Hl1 by exact Hi. lia.
    + rewrite Hx2, Hx1. split.
      * intros [[H|H]|(j & Hj & H)]; [left; exact H|right; exists op; split; [exact Hop|]|].
        -- case_bool_decide; [lia|congruence].
        -- right. exists j. split; [exact Hj|]. rewrite Hl1 in H by exact Hj. lia.
      * intros [H|(j & Hj & H)]; [left; left; exact H|].
        pose proof (Inv_lpos_le _ _ _ _ HI Hj).
        destruct (decide (lpos st j + (if bool_decide (op = j) then 1 else 0) <= length S)).
        -- right. exists j. split; [exact Hj|]. rewrite Hl1 by exact Hj. lia.
        -- left. right. case_bool_decide; [subst; lia|lia].
Qed.

Lemma list_min_attained (l : list nat) (m : nat) :
  m ∈ l -> (forall x, x ∈ l -> m <= x) -> list_min l = m.
Proof.
  intros Hm Hall. pose proof (list_min_le l m Hm).
  assert (Hne : l <> []) by (intros ->; inversion Hm).
  pose proof (Hall _ (list_min_elem l Hne)). lia.
Qed.

Lemma list_max_attained (l : list nat) (m : nat) :
  m ∈ l -> (forall x, x ∈ l -> x <= m) -> list_max l = m.
Proof.
  intros Hm Hall. pose proof (list_max_ge l m Hm). pose proof (list_max_le l m Hall). lia.
Qed.

Lemma elem_of_cursor_map (N : nat) (g : nat -> nat) (x : nat) :
  x ∈ map g (seq 0 N) <-> exists j, j < N /\ x = g j.
Proof.
  change (map g (seq 0 N)) with (g <$> seq 0 N). rewrite list_elem_of_fmap. split.
  - intros (j & -> & Hj). apply elem_of_seq in Hj. exists j. split; [lia|reflexivity].
  - intros (j & Hj & ->). exists j. split; [reflexivity|]. apply elem_of_seq. lia.
Qed.

(** In a reachable state, the slowest cursor has read [offset] elements and
    the fastest [elems_pulled]; the buffer holds exactly the source elements
    in between. *)
Lemma Inv_window (S : list val) (N : nat) (st : splitter) :
  Inv S N st ->
  list_min (map (lpos st) (seq 0 N)) = offset st /\
  list_max (map (lpos st) (seq 0 N)) = elems_pulled st /\
  streamBuffer st = drop (offset st) (take (elems_pulled st) S).
Proof.
  intros HI. destruct (inv_min _ _ _ HI) as (j0 & Hj0 & Hp0).
  destruct (inv_max _ _ _ HI) as (j1 & Hj1 & Hp1).
  pose proof (inv_buflen _ _ _ HI) as Hbl.
  destruct (Inv_elems _ _ _ HI) as (HeS & _ & _).
  split; [|split].
  - apply list_min_attained.
    + apply elem_of_cursor_map. exists j0. split; [exact Hj0|]. unfold lpos. lia.
    + intros x Hx. apply elem_of_cursor_map in Hx as (j & _ & ->). unfold lpos. lia.
  - apply list_max_attained.
    + apply elem_of_cursor_map. exists j1. split; [exact Hj1|]. unfold lpos, offset. lia.
    + intros x Hx. apply elem_of_cursor_map in Hx as (j & Hj & ->).
      pose proof (inv_pos _ _ _ HI j Hj). unfold lpos, offset. lia.
  - apply list_eq. intros k.
    rewrite lookup_drop. destruct (decide (k < length (streamBuffer st))) as [Hk|Hk].
    + rewrite (inv_buf _ _ _ HI k Hk), lookup_take_lt; [reflexivity|]. unfold offset. lia.
    + rewrite lookup_ge_None_2 by lia. symmetry. apply lookup_ge_None_2.
      rewrite length_take. unfold offset in Hk |- *. lia.
Qed.

Lemma init_lpos (S : list val) (err : option val) (N i : nat) :
  i < N -> lpos (init_splitter S err N) i = 0.
Proof.
  intros Hi. unfold lpos, offset, elems_pulled, pos_of, init_splitter; cbn.
  rewrite lookup_total_replicate_2 by lia. reflexivity.
Qed.

(** After [next()] calls on the cursors of [split(S, N)], cursor [j] has read
    [min(calls_j, |S|)] elements, and the source has been recorded as ended
    exactly when some cursor was called more than [|S|] times. *)
Lemma split_run_state (S : list val) (N : nat) (st0 : splitter) (ops : list nat) :
  createTeeIterators [VArr S; num_of_nat N] = inr st0 -> 1 <= N ->
  Forall (fun j => j < N) ops ->
  Inv S N (snd (run ops st0)) /\
  map (lpos (snd (run ops st0))) (seq 0 N) =
    map (fun j => Nat.min (calls_to j ops) (length S)) (seq 0 N) /\
  (streamExhausted (snd (run ops st0)) = true <-> exists j, j < N /\ length S < calls_to j ops).
Proof.
  intros Hc HN Hops.
  rewrite (createTeeIterators_nat (VArr S) S None N st0 eq_refl Hc).
  pose proof (Inv_init S N HN) as HI. pose proof (Inv_done_init N S) as HD.
  destruct (run_lpos_exhausted S N ops _ HI HD Hops) as (Hl & Hx).
  split; [exact (proj1 (proj2 (run_spec S N ops _ 0 HI HD Hops ltac:(lia))))|]. split.
  - apply map_ext_in. intros j Hj. apply list_elem_of_In, elem_of_seq in Hj.
    rewrite Hl, init_lpos by lia. reflexivity.
  - rewrite Hx. cbn [streamExhausted init_splitter]. split.
    + intros [H|(j & Hj & H)]; [discriminate|]. rewrite init_lpos in H by exact Hj. eauto.
    + intros (j & Hj & H). right. exists j. rewrite init_lpos by exact Hj. auto.
Qed.

(** Laziness of [split(S, N)]: after any sequence of [next()] calls, where
    cursor [j] has been called [calls_j] times, the source iterator has been
    pulled exactly [max_j min(calls_j, |S| + 1)] times: only as far as the
    furthest cursor has asked, plus the final end-of-source pull once some
    cursor has asked past the end. *)
Theorem split_pulls_on_demand (S : list val) (N : nat) (st0 : splitter) (ops : list nat) :
  createTeeIterators [VArr S; num_of_nat N] = inr st0 -> 1 <= N ->
  Forall (fun j => j < N) ops ->
  pulls (snd (run ops st0)) =
  list_max (map (fun j => Nat.min (calls_to j ops) (Datatypes.S (length S))) (seq 0 N)).
Proof.
  intros Hc HN Hops.
  destruct (split_run_state S N st0 ops Hc HN Hops) as (HI & Hmap & Hx).
  destruct (Inv_window _ _ _ HI) as (_ & Hmax & _). rewrite Hmap in Hmax.
  destruct (Inv_elems _ _ _ HI) as (_ & He1 & He0).
  destruct (streamExhausted (snd (run ops st0))) eqn:Hex.
  - pose proof (inv_pulls _ _ _ HI) as Hp. rewrite Hex in Hp. rewrite Hp.
    destruct (proj1 Hx eq_refl) as (j & Hj & Hlt). symmetry. apply list_max_attained.
    + apply elem_of_cursor_map. exists j. split; [exact Hj|]. lia.
    + intros x Hxm. apply elem_of_cursor_map in Hxm as (k & _ & ->). lia.
  - rewrite <- (He0 eq_refl), <- Hmax. f_equal. apply map_ext_in. intros j Hj.
    apply list_elem_of_In, elem_of_seq in Hj.
    assert (calls_to j ops <= length S).
    { destruct (decide (length S < calls_to j ops)); [|lia].
      assert (false = true) by (apply Hx; exists j; split; [lia|assumption]). discriminate. }
    lia.
Qed.

Lemma split_pulls_on_demand_witness :
  createTeeIterators [VArr [qnum 1; qnum 2; qnum 3]; num_of_nat 2] =
    inr (init_splitter [qnum 1; qnum 2; qnum 3] None 2) /\ 1 <= 2 /\
  Forall (fun j => j < 2) [0; 0; 1] /\
  pulls (snd (run [0; 0; 1] (init_splitter [qnum 1; qnum 2; qnum 3] None 2))) = 2.
Proof.
  split; [reflexivity|]. split; [lia|]. split; [repeat constructor; lia|].
  rewrite (split_pulls_on_demand [qnum 1; qnum 2; qnum 3] 2 (init_splitter [qnum 1; qnum 2; qnum 3] None 2)
             [0; 0; 1] ltac:(reflexivity) ltac:(lia)
             ltac:(repeat constructor; lia)).
  reflexivity.
Defined.

(** What the buffer of [split(S, N)] holds: after any sequence of [next()]
    calls, exactly the source elements between the slowest cursor's read
    count and the fastest one's, in source order (cursor [j] having read
    [min(calls_j, |S|)] elements). In particular the buffer is empty when
    all cursors have read equally far. *)
Theorem split_buffer_window (S : list val) (N : nat) (st0 : splitter) (ops : list nat) :
  createTeeIterators [VArr S; num_of_nat N] = inr st0 -> 1 <= N ->
  Forall (fun j => j < N) ops ->
  let R := map (fun j => Nat.min (calls_to j ops) (length S)) (seq 0 N) in
  streamBuffer (snd (run ops st0)) = drop (list_min R) (take (list_max R) S).
Proof.
  intros Hc HN Hops R.
  destruct (split_run_state S N st0 ops Hc HN Hops) as (HI & Hmap & _).
  destruct (Inv_window _ _ _ HI) as (Hmin & Hmax & Hb). unfold R. rewrite <- Hmap, Hmin, Hmax.
  exact Hb.
Qed.

Lemma split_buffer_window_witness :
  createTeeIterators [VArr [qnum 1; qnum 2; qnum 3]; num_of_nat 2] =
    inr (init_splitter [qnum 1; qnum 2; qnum 3] None 2) /\ 1 <= 2 /\
  Forall (fun j => j < 2) [0; 0; 1] /\
  streamBuffer (snd (run [0; 0; 1] (init_splitter [qnum 1; qnum 2; qnum 3] None 2))) = [qnum 2].
Proof.
  split; [reflexivity|]. split; [lia|]. split; [repeat constructor; lia|].
  rewrite (split_buffer_window [qnum 1; qnum 2; qnum 3] 2 (init_splitter [qnum 1; qnum 2; qnum 3] None 2)
             [0; 0; 1] ltac:(reflexivity) ltac:(lia)
             ltac:(repeat constructor; lia)).
  reflexivity.
Defined.

(* ------------------------------------------------------------------ *)
(** ** Further properties of [teeConsumers] *)

Lemma run_consumers_length (fuel ci : nat) (ds : list desc) (st : splitter) (tr : list call)
    (out : list val) (st' : splitter) (tr' : list call) :
  run_consumers fuel ci ds st tr = Some (inr out, st', tr') -> length out = length ds.
Proof.
  revert ci st tr out st' tr'. induction ds as [|d ds IH]; intros ci st tr out st' tr' H; cbn in H.
  - injection H as <- _ _. reflexivity.
  - destruct (for_of fuel ci d (init_vars d) 0 st tr) as [[[[e|lv] st1] tr1]|]; try discriminate.
    destruct (run_consumers fuel (Datatypes.S ci) ds st1 tr1) as [[[[e|out'] st2] tr2]|] eqn:Hr;
      try discriminate.
    injection H as <- _ _. cbn. f_equal. eapply IH. exact Hr.
Qed.

(** When [teeConsumers] returns, its result array has one entry per
    consumer argument. *)
Theorem tee_result_length (this : val) (cs : list arg) (out : list val) (p : nat) (tr : list call) :
  teeConsumers this cs = Some (inr out, p, tr) -> length out = length cs.
Proof.
  unfold teeConsumers. destruct this; try discriminate.
  destruct cs as [|c cs']; [discriminate|].
  destruct (validate_consumers (c :: cs')) as [e|ds] eqn:Hv; [discriminate|].
  destruct (createTeeIterators _) as [e|st]; [discriminate|].
  destruct (run_consumers _ 0 ds st []) as [[[r st'] tr']|] eqn:Hr; [|discriminate].
  intros H. injection H as -> _ _.
  rewrite (run_consumers_length _ _ _ _ _ _ _ _ Hr). exact (validate_consumers_length _ _ Hv).
Qed.

Lemma tee_result_length_witness :
  teeConsumers (VArr [qnum 1; qnum 2])
    [AObj (mkDesc (Some (VStr "map")) (Some (FFun ex_double)) None);
     AObj (mkDesc (Some (VStr "forEach")) (Some (FFun ex_noop)) None)] =
    Some (inr [VArr [qnum 2; qnum 4]; VUndef], 3,
          [(0, [qnum 1; num_of_nat 0]); (0, [qnum 2; num_of_nat 1]);
           (1, [qnum 1; num_of_nat 0]); (1, [qnum 2; num_of_nat 1])])
  /\ length [VArr [qnum 2; qnum 4]; VUndef] = 2.
Proof.
  assert (H : teeConsumers (VArr [qnum 1; qnum 2])
    [AObj (mkDesc (Some (VStr "map")) (Some (FFun ex_double)) None);
     AObj (mkDesc (Some (VStr "forEach")) (Some (FFun ex_noop)) None)] =
    Some (inr [VArr [qnum 2; qnum 4]; VUndef], 3,
          [(0, [qnum 1; num_of_nat 0]); (0, [qnum 2; num_of_nat 1]);
           (1, [qnum 1; num_of_nat 0]); (1, [qnum 2; num_of_nat 1])]))
    by (vm_compute; reflexivity).
  split; [exact H|]. exact (tee_result_length _ _ _ _ _ H).
Defined.

Lemma run_consumers_exhausts (S : list val) (N : nat) (ds : list desc) (ci : nat)
    (st : splitter) (tr : list call) (out : list val) (st' : splitter) (tr' : list call) :
  Inv S N st -> Inv_done N st -> ci + length ds = N ->
  (forall j, ci <= j -> j < N -> lpos st j = 0 /\ done_of st j = false) ->
  run_consumers (Datatypes.S (length S)) ci ds st tr = Some (inr out, st', tr') -> ds <> [] ->
  Inv S N st' /\ streamExhausted st' = true.
Proof.
  revert ci st tr out tr'. induction ds as [|d ds IH]; intros ci st tr out tr' HI HD HN Hfresh H Hne;
    [congruence|].
  cbn [length] in HN. destruct (Hfresh ci ltac:(lia) ltac:(lia)) as (Hl0 & Hd0).
  destruct (for_of_spec S N (Datatypes.S (length S)) ci d (init_vars d) 0 st tr
              HI HD ltac:(lia) Hd0 Hl0 ltac:(lia)) as (st1 & Hfor & Hprop).
  rewrite drop_0 in Hfor, Hprop. cbn [run_consumers] in H. rewrite Hfor in H.
  destruct (body_fold ci d (init_vars d) 0 S tr) as [[e|lv] tr1] eqn:Hb; cbn [fst snd] in H, Hfor;
    [discriminate|].
  destruct (Hprop ltac:(exists lv; reflexivity)) as (HI1 & HD1 & Hj1).
  pose proof (for_of_exhausts S N _ ci d _ 0 st tr lv st1 tr1 HI HD ltac:(lia) Hd0 Hfor) as Hx1.
  destruct ds as [|d2 ds].
  - cbn in H. injection H as _ <- _. auto.
  - destruct (run_consumers (Datatypes.S (length S)) (Datatypes.S ci) (d2 :: ds) st1 tr1)
      as [[[[e|out'] st2] tr2]|] eqn:Hr; try discriminate.
    injection H as _ <- _.
    refine (IH (Datatypes.S ci) st1 tr1 out' tr2 HI1 HD1 ltac:(cbn in *; lia) _ Hr ltac:(discriminate)).
    intros j Hj HjN. destruct (Hj1 j HjN ltac:(lia)) as (-> & ->). apply Hfresh; lia.
Qed.

(** Single pass: whenever [teeConsumers] returns on an array [S], the array's
    iterator has been pulled exactly [|S| + 1] times, however many consumers
    there are. *)
Theorem tee_single_pass (S : list val) (cs : list arg) (out : list val) (p : nat) (tr : list call) :
  teeConsumers (VArr S) cs = Some (inr out, p, tr) -> p = Datatypes.S (length S).
Proof.
  unfold teeConsumers. destruct cs as [|c cs']; [discriminate|].
  destruct (validate_consumers (c :: cs')) as [e|ds] eqn:Hv; [discriminate|].
  pose proof (validate_consumers_length _ _ Hv) as Hl. cbn in Hl.
  destruct (createTeeIterators [VArr S; num_of_nat (length ds)]) as [e|st] eqn:Hc; [discriminate|].
  rewrite (createTeeIterators_nat (VArr S) S None (length ds) st eq_refl Hc).
  destruct (run_consumers _ 0 ds _ []) as [[[r st'] tr']|] eqn:Hr; [|discriminate].
  intros H. injection H as -> <- _.
  assert (HN : 1 <= length ds) by lia.
  destruct (run_consumers_exhausts S (length ds) ds 0 _ [] out st' tr'
              (Inv_init S _ HN) (Inv_done_init _ S) ltac:(lia)) as (HI & Hx).
  - intros j _ Hj. split; [apply init_lpos; exact Hj|].
    unfold done_of, init_splitter; cbn. rewrite lookup_total_replicate_2 by lia. reflexivity.
  - exact Hr.
  - destruct ds; cbn in Hl; [lia|discriminate].
  - pose proof (inv_pulls _ _ _ HI) as Hp. rewrite Hx in Hp. exact Hp.
Qed.

Lemma tee_single_pass_witness :
  teeConsumers (VArr [qnum 1; qnum 2; qnum 3; qnum 4]) (map AObj ex_consumers) =
    Some (inr [VArr [qnum 2; qnum 4; qnum 6; qnum 8]; VArr [qnum 2; qnum 4]; qnum 10; VUndef], 5,
          [(0, [qnum 1; num_of_nat 0]); (0, [qnum 2; num_of_nat 1]);
           (0, [qnum 3; num_of_nat 2]); (0, [qnum 4; num_of_nat 3]);
           (1, [qnum 1; num_of_nat 0]); (1, [qnum 2; num_of_nat 1]);
           (1, [qnum 3; num_of_nat 2]); (1, [qnum 4; num_of_nat 3]);
           (2, [qnum 0; qnum 1; num_of_nat 0]); (2, [qnum 1; qnum 2; num_of_nat 1]);
           (2, [qnum 3; qnum 3; num_of_nat 2]); (2, [qnum 6; qnum 4; num_of_nat 3]);
           (3, [qnum 1; num_of_nat 0]); (3, [qnum 2; num_of_nat 1]);
           (3, [qnum 3; num_of_nat 2]); (3, [qnum 4; num_of_nat 3])]) /\
  5 = Datatypes.S (length [qnum 1; qnum 2; qnum 3; qnum 4]).
Proof.
  assert (H : teeConsumers (VArr [qnum 1; qnum 2; qnum 3; qnum 4]) (map AObj ex_consumers) =
    Some (inr [VArr [qnum 2; qnum 4; qnum 6; qnum 8]; VArr [qnum 2; qnum 4]; qnum 10; VUndef], 5,
          [(0, [qnum 1; num_of_nat 0]); (0, [qnum 2; num_of_nat 1]);
           (0, [qnum 3; num_of_nat 2]); (0, [qnum 4; num_of_nat 3]);
           (1, [qnum 1; num_of_nat 0]); (1, [qnum 2; num_of_nat 1]);
           (1, [qnum 3; num_of_nat 2]); (1, [qnum 4; num_of_nat 3]);
           (2, [qnum 0; qnum 1; num_of_nat 0]); (2, [qnum 1; qnum 2; num_of_nat 1]);
           (2, [qnum 3; qnum 3; num_of_nat 2]); (2, [qnum 6; qnum 4; num_of_nat 3]);
           (3, [qnum 1; num_of_nat 0]); (3, [qnum 2; num_of_nat 1]);
           (3, [qnum 3; num_of_nat 2]); (3, [qnum 4; num_of_nat 3])]))
    by (vm_compute; reflexivity).
  split; [exact H|]. exact (tee_single_pass _ _ _ _ _ H).
Defined.

Lemma consumer_body_trace (ci : nat) (d : desc) (lv : loop_vars) (x : val) (k : nat)
    (tr : list call) (r : exn + loop_vars) (tr1 : list call) :
  consumer_body ci d lv x k tr = (r, tr1) ->
  exists l, tr1 = tr ++ l /\ Forall (fun c => fst c = ci) l.
Proof.
  unfold consumer_body. intros H.
  repeat case_match; injection H as _ <-;
    first [ exists []; rewrite app_nil_r; split; [reflexivity|constructor]
          | eexists; split; [reflexivity|repeat constructor] ].
Qed.

Lemma for_of_trace (fuel ci : nat) (d : desc) (lv : loop_vars) (k : nat) (st : splitter)
    (tr : list call) (r : exn + loop_vars) (st' : splitter) (tr' : list call) :
  for_of fuel ci d lv k st tr = Some (r, st', tr') ->
  exists l, tr' = tr ++ l /\ Forall (fun c => fst c = ci) l.
Proof.
  revert lv k st tr. induction fuel as [|fuel IH]; intros lv k st tr H; [discriminate|].
  cbn [for_of] in H. destruct (next ci st) as [[x| |e] st1].
  - destruct (consumer_body ci d lv x k tr) as [[e|lv1] tr1] eqn:Hb.
    + injection H as _ _ <-. exact (consumer_body_trace _ _ _ _ _ _ _ _ Hb).
    + destruct (consumer_body_trace _ _ _ _ _ _ _ _ Hb) as (l1 & -> & Hl1).
      destruct (IH _ _ _ _ H) as (l2 & -> & Hl2).
      exists (l1 ++ l2). rewrite app_assoc. split; [reflexivity|]. apply Forall_app; auto.
  - injection H as _ _ <-. exists []. rewrite app_nil_r. auto.
  - injection H as _ _ <-. exists []. rewrite app_nil_r. auto.
Qed.

Lemma grouped_const (ci : nat) (l : list call) :
  Forall (fun c => fst c = ci) l -> grouped l.
Proof.
  intros Hl a b ca cb _ Ha Hb.
  rewrite (proj1 (Forall_lookup _ _) Hl a ca Ha), (proj1 (Forall_lookup _ _) Hl b cb Hb). lia.
Qed.

Lemma grouped_app (l1 l2 : list call) :
  grouped l1 -> grouped l2 -> (forall x y, x ∈ l1 -> y ∈ l2 -> fst x <= fst y) ->
  grouped (l1 ++ l2).
Proof.
  intros H1 H2 H12 a b ca cb Hab Ha Hb. unfold call in *.
  destruct (decide (b < length l1)) as [Hb1|Hb1].
  - rewrite lookup_app_l in Ha by lia. rewrite lookup_app_l in Hb by lia. eauto.
  - rewrite lookup_app_r in Hb by lia.
    destruct (decide (a < length l1)) as [Ha1|Ha1].
    + rewrite lookup_app_l in Ha by lia.
      apply H12; eapply list_elem_of_lookup_2; eauto.
    + rewrite lookup_app_r in Ha by lia. refine (H2 (a - length l1) (b - length l1) ca cb _ Ha Hb). lia.
Qed.

Lemma run_consumers_trace (fuel ci : nat) (ds : list desc) (st : splitter) (tr : list call)
    (r : exn + list val) (st' : splitter) (tr' : list call) :
  run_consumers fuel ci ds st tr = Some (r, st', tr') ->
  exists l, tr' = tr ++ l /\ grouped l /\ Forall (fun c => ci <= fst c < ci + length ds) l.
Proof.
  revert ci st tr r st' tr'. induction ds as [|d ds IH]; intros ci st tr r st' tr' H; cbn in H.
  - injection H as _ _ <-. exists []. rewrite app_nil_r. split; [reflexivity|].
    split; [|constructor]. intros a b ca cb _ Ha. discriminate.
  - destruct (for_of fuel ci d (init_vars d) 0 st tr) as [[[[e|lv] st1] tr1]|] eqn:Hf;
      [| |discriminate].
    + injection H as _ _ <-. destruct (for_of_trace _ _ _ _ _ _ _ _ _ _ Hf) as (l & -> & Hl).
      exists l. split; [reflexivity|]. split; [exact (grouped_const _ _ Hl)|].
      eapply Forall_impl; [exact Hl|]. cbn. lia.
    + destruct (for_of_trace _ _ _ _ _ _ _ _ _ _ Hf) as (l1 & -> & Hl1).
      assert (Hr : exists r2, run_consumers fuel (Datatypes.S ci) ds st1 (tr ++ l1) = Some (r2, st', tr')).
      { destruct (run_consumers fuel (Datatypes.S ci) ds st1 (tr ++ l1)) as [[[[e|out] st2] tr2]|];
          [injection H as _ <- <-| injection H as _ <- <-|discriminate]; eauto. }
      destruct Hr as (r2 & Hr). destruct (IH _ _ _ _ _ _ Hr) as (l2 & -> & Hg2 & Hl2).
      exists (l1 ++ l2). rewrite app_assoc. split; [reflexivity|]. split.
      * apply grouped_app; [exact (grouped_const _ _ Hl1)|exact Hg2|].
        intros x y Hx Hy. rewrite Forall_forall in Hl1, Hl2.
        specialize (Hl1 x Hx). specialize (Hl2 y Hy). lia.
      * apply Forall_app; split.
        -- eapply Forall_impl; [exact Hl1|]. cbn. lia.
        -- eapply Forall_impl; [exact Hl2|]. cbn. lia.
Qed.

(** The consumers run one after the other: in the trace of [fn] calls of any
    [teeConsumers] call, the calls of consumer [i] all come before those of a
    later consumer, and only consumers that were passed make calls. *)
Theorem tee_calls_grouped (this : val) (cs : list arg) (r : exn + list val) (p : nat)
    (tr : list call) :
  teeConsumers this cs = Some (r, p, tr) ->
  grouped tr /\ Forall (fun c => fst c < length cs) tr.
Proof.
  assert (Hnil : grouped [] /\ Forall (fun c : call => fst c < length cs) [])
    by (split; [intros a b ca cb _ Ha; discriminate|constructor]).
  unfold teeConsumers. destruct this; try (intros H; injection H as _ _ <-; exact Hnil).
  destruct cs as [|c cs']; [intros H; injection H as _ _ <-; exact Hnil|].
  destruct (validate_consumers (c :: cs')) as [e|ds] eqn:Hv; [intros H; injection H as _ _ <-; exact Hnil|].
  destruct (createTeeIterators _) as [e|st]; [intros H; injection H as _ _ <-; exact Hnil|].
  destruct (run_consumers _ 0 ds st []) as [[[r' st'] tr']|] eqn:Hr; [|discriminate].
  intros H. injection H as _ _ <-.
  destruct (run_consumers_trace _ _ _ _ _ _ _ _ Hr) as (lc & -> & Hg & Hl).
  rewrite <- (validate_consumers_length _ _ Hv). split; [exact Hg|].
  eapply Forall_impl; [exact Hl|]. cbn. lia.
Qed.

Lemma tee_calls_grouped_witness :
  teeConsumers (VArr [qnum 1; qnum 2; qnum 3; qnum 4]) (map AObj ex_consumers) =
    Some (inr [VArr [qnum 2; qnum 4; qnum 6; qnum 8]; VArr [qnum 2; qnum 4]; qnum 10; VUndef], 5,
          [(0, [qnum 1; num_of_nat 0]); (0, [qnum 2; num_of_nat 1]);
           (0, [qnum 3; num_of_nat 2]); (0, [qnum 4; num_of_nat 3]);
           (1, [qnum 1; num_of_nat 0]); (1, [qnum 2; num_of_nat 1]);
           (1, [qnum 3; num_of_nat 2]); (1, [qnum 4; num_of_nat 3]);
           (2, [qnum 0; qnum 1; num_of_nat 0]); (2, [qnum 1; qnum 2; num_of_nat 1]);
           (2, [qnum 3; qnum 3; num_of_nat 2]); (2, [qnum 6; qnum 4; num_of_nat 3]);
           (3, [qnum 1; num_of_nat 0]); (3, [qnum 2; num_of_nat 1]);
           (3, [qnum 3; num_of_nat 2]); (3, [qnum 4; num_of_nat 3])]) /\
  grouped [(0, [qnum 1; num_of_nat 0]); (0, [qnum 2; num_of_nat 1]);
           (0, [qnum 3; num_of_nat 2]); (0, [qnum 4; num_of_nat 3]);
           (1, [qnum 1; num_of_nat 0]); (1, [qnum 2; num_of_nat 1]);
           (1, [qnum 3; num_of_nat 2]); (1, [qnum 4; num_of_nat 3]);
           (2, [qnum 0; qnum 1; num_of_nat 0]); (2, [qnum 1; qnum 2; num_of_nat 1]);
           (2, [qnum 3; qnum 3; num_of_nat 2]); (2, [qnum 6; qnum 4; num_of_nat 3]);
           (3, [qnum 1; num_of_nat 0]); (3, [qnum 2; num_of_nat 1]);
           (3, [qnum 3; num_of_nat 2]); (3, [qnum 4; num_of_nat 3])].
Proof.
  assert (H : teeConsumers (VArr [qnum 1; qnum 2; qnum 3; qnum 4]) (map AObj ex_consumers) =
    Some (inr [VArr [qnum 2; qnum 4; qnum 6; qnum 8]; VArr [qnum 2; qnum 4]; qnum 10; VUndef], 5,
          [(0, [qnum 1; num_of_nat 0]); (0, [qnum 2; num_of_nat 1]);
           (0, [qnum 3; num_of_nat 2]); (0, [qnum 4; num_of_nat 3]);
           (1, [qnum 1; num_of_nat 0]); (1, [qnum 2; num_of_nat 1]);
           (1, [qnum 3; num_of_nat 2]); (1, [qnum 4; num_of_nat 3]);
           (2, [qnum 0; qnum 1; num_of_nat 0]); (2, [qnum 1; qnum 2; num_of_nat 1]);
           (2, [qnum 3; qnum 3; num_of_nat 2]); (2, [qnum 6; qnum 4; num_of_nat 3]);
           (3, [qnum 1; num_of_nat 0]); (3, [qnum 2; num_of_nat 1]);
           (3, [qnum 3; num_of_nat 2]); (3, [qnum 4; num_of_nat 3])]))
    by (vm_compute; reflexivity).
  split; [exact H|]. exact (proj1 (tee_calls_grouped _ _ _ _ _ H)).
Defined.

Lemma store_result_init (d : desc) : store_result d (init_vars d) = empty_result d.
Proof.
  unfold store_result, init_vars, empty_result. cbn [mapResult reduceResult filterResult].
  repeat case_bool_decide; cbn; first [reflexivity | congruence].
Qed.

(** On an empty array, [teeConsumers] makes no [fn] call and returns, for
    every validated consumer list, [[]] for map and filter, the [initVal]
    for reduce, [undefined] for forEach and [0] for any other kind. *)
Theorem tee_empty_array (cs : list arg) (ds : list desc) :
  cs <> [] -> validate_consumers cs = inr ds -> (Z.of_nat (length cs) < 2 ^ 32)%Z ->
  exists p, teeConsumers (VArr []) cs = Some (inr (map empty_result ds), p, []).
Proof.
  intros Hne Hv Hlen. destruct (teeConsumers_spec [] cs ds Hne Hv Hlen) as (p & H).
  exists p. rewrite H, consumers_fold_empty. cbn [fst snd]. do 2 f_equal.
  f_equal. f_equal. apply map_ext. intros d. apply store_result_init.
Qed.

Lemma tee_empty_array_witness :
  [AObj (mkDesc (Some (VStr "reduce")) (Some (FFun ex_plus)) (Some (qnum 7)));
   AObj (mkDesc (Some (VStr "scan")) (Some (FFun ex_noop)) None)] <> [] /\
  validate_consumers
    [AObj (mkDesc (Some (VStr "reduce")) (Some (FFun ex_plus)) (Some (qnum 7)));
     AObj (mkDesc (Some (VStr "scan")) (Some (FFun ex_noop)) None)] =
    inr [mkDesc (Some (VStr "reduce")) (Some (FFun ex_plus)) (Some (qnum 7));
         mkDesc (Some (VStr "scan")) (Some (FFun ex_noop)) None] /\
  exists p, teeConsumers (VArr [])
    [AObj (mkDesc (Some (VStr "reduce")) (Some (FFun ex_plus)) (Some (qnum 7)));
     AObj (mkDesc (Some (VStr "scan")) (Some (FFun ex_noop)) None)] =
    Some (inr [qnum 7; VNum 0], p, []).
Proof.
  split; [discriminate|]. split; [reflexivity|].
  destruct (tee_empty_array
    [AObj (mkDesc (Some (VStr "reduce")) (Some (FFun ex_plus)) (Some (qnum 7)));
     AObj (mkDesc (Some (VStr "scan")) (Some (FFun ex_noop)) None)]
    [mkDesc (Some (VStr "reduce")) (Some (FFun ex_plus)) (Some (qnum 7));
     mkDesc (Some (VStr "scan")) (Some (FFun ex_noop)) None]
    ltac:(discriminate) eq_refl ltac:(cbn; lia)) as (p & H).
  exists p. exact H.
Defined.

Lemma consumers_fold_calls (S : list val) (ci : nat) (ds : list desc) (tr : list call) :
  Forall (fun d => known_kind d = true /\ exists f, d_fn d = Some (FFun f)) ds ->
  snd (consumers_fold S ci ds tr) = tr ++ all_calls S ci ds.
Proof.
  intros Hds. revert ci tr. induction Hds as [|d ds [Hk [f Hf]] Hds IH]; intros ci tr.
  - cbn. rewrite app_nil_r. reflexivity.
  - destruct (body_fold_known ci d f S tr Hf Hk) as (lv & Hlv & _).
    pose proof (body_fold_known_calls ci d f S tr Hf Hk) as Hc.
    cbn [consumers_fold all_calls]. destruct (body_fold ci d (init_vars d) 0 S tr) as [res tr1].
    cbn in Hlv, Hc. subst res tr1.
    pose proof (consumers_fold_known S (Datatypes.S ci) ds (tr ++ consumer_calls S ci d) Hds) as Hr.
    specialize (IH (Datatypes.S ci) (tr ++ consumer_calls S ci d)).
    destruct (consumers_fold S (Datatypes.S ci) ds (tr ++ consumer_calls S ci d)) as [res2 tr2].
    cbn in Hr, IH |- *. subst res2. rewrite IH, app_assoc. reflexivity.
Qed.

(** With well-formed consumers of recognised kinds, the [fn] calls
    [teeConsumers] makes are, consumer after consumer, one call
    [fn(element, index)] per element for map, filter and forEach, and the
    calls of the fold for reduce. *)
Theorem tee_calls_known (S : list val) (ds : list desc) :
  ds <> [] ->
  Forall (fun d => well_formed_consumer (AObj d) = true /\ known_kind d = true) ds ->
  (Z.of_nat (length ds) < 2 ^ 32)%Z ->
  exists p, teeConsumers (VArr S) (map AObj ds) = Some (inr (map (spec_result S) ds), p, all_calls S 0 ds).
Proof.
  intros Hne Hds Hlen.
  assert (Hv : validate_consumers (map AObj ds) = inr ds).
  { apply validate_well_formed. eapply Forall_impl; [exact Hds|]. intros d [H _]. exact H. }
  assert (Hk : Forall (fun d => known_kind d = true /\ exists f, d_fn d = Some (FFun f)) ds).
  { eapply Forall_impl; [exact Hds|]. intros d [H1 H2]. split; [exact H2|]. apply well_formed_fn, H1. }
  destruct (teeConsumers_spec S (map AObj ds) ds ltac:(destruct ds; [congruence|discriminate]) Hv
              ltac:(rewrite length_map; exact Hlen)) as (p & H).
  exists p. rewrite H, consumers_fold_known, consumers_fold_calls by exact Hk. reflexivity.
Qed.

Lemma tee_calls_known_witness :
  ex_consumers <> [] /\
  Forall (fun d => well_formed_consumer (AObj d) = true /\ known_kind d = true) ex_consumers /\
  (Z.of_nat (length ex_consumers) < 2 ^ 32)%Z /\
  exists p, teeConsumers (VArr [qnum 1; qnum 2; qnum 3]) (map AObj ex_consumers) =
    Some (inr (map (spec_result [qnum 1; qnum 2; qnum 3]) ex_consumers), p,
          all_calls [qnum 1; qnum 2; qnum 3] 0 ex_consumers).
Proof.
  assert (Hne : ex_consumers <> []) by discriminate.
  assert (Hds : Forall (fun d => well_formed_consumer (AObj d) = true /\ known_kind d = true) ex_consumers)
    by (repeat constructor).
  assert (Hlen : (Z.of_nat (length ex_consumers) < 2 ^ 32)%Z) by (cbn; lia).
  split; [exact Hne|]. split; [exact Hds|]. split; [exact Hlen|].
  exact (tee_calls_known [qnum 1; qnum 2; qnum 3] ex_consumers Hne Hds Hlen).
Defined.
